(** * ig-trading-bot: the database utilities of [utils/database/functions.py]

    A shallow embedding of the persistence and maintenance operations of the
    market-data store: the symbol directory reads, the insertion of newly
    observed symbols, and the delete-then-recompute backfill and aggregation
    operations, each run against the one module-level SQLAlchemy session.

    Conventions of the embedding.
    - A table is the list of its rows in storage order; duplicates are kept.
    - A [datetime] is the number of microseconds since 1970-01-01T00:00, the
      resolution of Python's [datetime]; differences are exact integers, and
      [timedelta.total_seconds()] is the binary64 nearest to the exact number
      of seconds.
    - A symbol is a [string] of ASCII characters, on which [str.upper] acts
      on the letters a-z and keeps the length.  Text outside ASCII is outside
      the embedding: there Python's [str.upper] follows the Unicode case
      mapping, which can lengthen a string.
    - The session is threaded through every operation as explicit state; an
      exception is the left injection of the result. *)

From Stdlib Require Import ZArith Ascii.
From Stdlib Require String.
From stdpp Require Import base list strings sorting gmap.

Local Open Scope Z_scope.

(** ** The schema ([utils/database/models.py], db tables) *)

(** A point in time, in microseconds. *)
Definition datetime : Type := Z.

(** Days from 1970-01-01 to the civil date [y]-[m]-[d] (proleptic Gregorian
    calendar, the one of Python's [datetime]). *)
Definition days_from_civil (y m d : Z) : Z :=
  let y' := if m <=? 2 then y - 1 else y in
  let era := y' / 400 in
  let yoe := y' - era * 400 in
  let mp := if m <=? 2 then m + 9 else m - 3 in
  let doy := (153 * mp + 2) / 5 + d - 1 in
  let doe := yoe * 365 + yoe / 4 - yoe / 100 + doy in
  era * 146097 + doe - 719468.

(** [dt(year, month, day, hour, minute)] of the [__main__] block. *)
Definition dt (year month day hour minute : Z) : datetime :=
  (((days_from_civil year month day * 24 + hour) * 60 + minute) * 60) * 1000000.

(** Modelled from the spec: the entity [StockBar] of [utils/database/models.py]
    (table [fact_stock_bars]): symbol, observation time, imputation flag and
    the OHLCV numbers, which no operation here inspects. *)
Module StockBar.
Record t : Type := mk {
  symbol : string;
  created_at : datetime;
  is_imputed : bool;
  ohlcv : list Z
}.
Global Instance eq_dec : EqDecision t.
Proof. solve_decision. Defined.
End StockBar.

(** Modelled from the spec: the entity [Stock] of [utils/database/models.py]
    (table [dim_stocks]), one row per known ticker; the schema keeps
    [symbol] unique. *)
Module Stock.
Record t : Type := mk { symbol : string }.
Global Instance eq_dec : EqDecision t.
Proof. solve_decision. Defined.
End Stock.

(** Modelled from the spec: the entity [StockBarAggregate] of
    [utils/database/models.py]: symbol, window start, granularity and the
    aggregated numbers. *)
Module StockBarAggregate.
Record t : Type := mk {
  symbol : string;
  created_at : datetime;
  aggregation : string;
  ohlcv : list Z
}.
Global Instance eq_dec : EqDecision t.
Proof. solve_decision. Defined.
End StockBarAggregate.

(** The three tables of the store. *)
Record DB : Type := mkDB {
  fact_stock_bars : list StockBar.t;
  dim_stocks : list Stock.t;
  agg_stock_bars : list StockBarAggregate.t
}.

(** ** The session ([utils/database/db.py]: [SessionLocal], no autocommit) *)

Inductive exn : Type :=
| DBAPIError (msg : string)   (* raised by the database driver *)
| IndexError.                 (* [string index out of range] *)

(** The outcome of a Python block: an exception raised, or a value. *)
Definition result (A : Type) : Type := exn + A.

(** [committed] is what the database holds durably, [pending] is the view of
    the open transaction (the committed rows plus the statements executed and
    not yet committed).  [fault], when set, is the error the connection raises
    on every statement and commit. *)
Record Session : Type := mkSession {
  committed : DB;
  pending : DB;
  fault : option exn
}.

(** Computations over the module-level [session]. *)
Definition M (A : Type) : Type := Session → result A * Session.

Global Instance M_ret : MRet M := λ A x s, (inr x, s).
Global Instance M_bind : MBind M := λ A B f m s,
  match m s with
  | (inl e, s') => (inl e, s')
  | (inr x, s') => f x s'
  end.

Definition raise {A} (e : exn) : M A := λ s, (inl e, s).

(** [try: body except Exception as e: handler e] *)
Definition try_except {A} (body : M A) (handler : exn → M A) : M A := λ s,
  match body s with
  | (inl e, s') => handler e s'
  | (inr x, s') => (inr x, s')
  end.

(** [try: body finally: cleanup] *)
Definition try_finally {A} (body : M A) (cleanup : M unit) : M A := λ s,
  match body s with
  | (r, s') =>
      match cleanup s' with
      | (inl e, s'') => (inl e, s'')
      | (inr _, s'') => (r, s'')
      end
  end.

(** [session.query(...).all()] and [session.execute(select).all()]: a read of
    the transaction's view. *)
Definition session_query {A} (q : DB → A) : M A := λ s,
  match fault s with
  | Some e => (inl e, s)
  | None => (inr (q (pending s)), s)
  end.

(** [session.execute(stmt)] for a statement that writes; a statement that
    fails changes nothing. *)
Definition session_execute (stmt : DB → result DB) : M unit := λ s,
  match fault s with
  | Some e => (inl e, s)
  | None =>
      match stmt (pending s) with
      | inl e => (inl e, s)
      | inr db => (inr (), mkSession (committed s) db (fault s))
      end
  end.

(** [session.commit()] *)
Definition session_commit : M unit := λ s,
  match fault s with
  | Some e => (inl e, s)
  | None => (inr (), mkSession (pending s) (pending s) (fault s))
  end.

(** [session.rollback()]: the open transaction is discarded. *)
Definition session_rollback : M unit := λ s,
  (inr (), mkSession (committed s) (committed s) (fault s)).

(** [session.close()]: releases the connection, discarding what was not
    committed. *)
Definition session_close : M unit := session_rollback.

(** ** SQL fragments *)

(** [SELECT DISTINCT ON (key) *]: one row for each value of the key. *)
Fixpoint distinct_on {A K} `{EqDecision K} (key : A → K) (rows : list A) : list A :=
  match rows with
  | [] => []
  | r :: rows' =>
      if decide (key r ∈ key <$> rows') then distinct_on key rows'
      else r :: distinct_on key rows'
  end.

(** [table.delete().where(cond)] *)
Definition delete_where {A} (cond : A → bool) (rows : list A) : list A :=
  filter (λ r, cond r = false) rows.

(** PostgreSQL's [string LIKE pattern], with the default escape character:
    [%] matches any run of characters, [_] any one character, a backslash
    makes the next pattern character literal. *)
Fixpoint like_chars (pattern : list ascii) (s : list ascii) {struct pattern} : bool :=
  match pattern with
  | [] => match s with [] => true | _ => false end
  | "%"%char :: pattern' =>
      (fix any_run (s : list ascii) : bool :=
         like_chars pattern' s ||
         match s with
         | [] => false
         | _ :: s' => any_run s'
         end) s
  | "_"%char :: pattern' =>
      match s with
      | [] => false
      | _ :: s' => like_chars pattern' s'
      end
  | "\"%char :: [] => false
  | "\"%char :: c :: pattern' =>
      match s with
      | [] => false
      | c' :: s' => bool_decide (c = c') && like_chars pattern' s'
      end
  | c :: pattern' =>
      match s with
      | [] => false
      | c' :: s' => bool_decide (c = c') && like_chars pattern' s'
      end
  end.

Definition like (s pattern : string) : bool :=
  like_chars (String.list_ascii_of_string pattern) (String.list_ascii_of_string s).

(** ** Python fragments *)

(** [c.upper()] on one ASCII character (code below 128); a character with
    a higher code stands for no text of the source and is left alone. *)
Definition upper_ascii (c : ascii) : ascii :=
  let n := N_of_ascii c in
  if ((97 <=? n) && (n <=? 122))%N then ascii_of_N (n - 32) else c.

(** [s.upper()] *)
Fixpoint upper (s : string) : string :=
  match s with
  | EmptyString => EmptyString
  | String c s' => String (upper_ascii c) (upper s')
  end.

(** [s[0]] *)
Definition getitem0 (s : string) : result string :=
  match s with
  | EmptyString => inl IndexError
  | String c _ => inr (String c EmptyString)
  end.

(** [l.sort()] on a list of strings: ascending by code points. *)
Definition sort (l : list string) : list string := merge_sort String.le l.

(** ** Symbol directory operations *)

Definition get_active_symbols : M (list string) :=
  try_finally
    (try_except
       (active_symbols ← session_query (λ db, distinct_on StockBar.symbol (fact_stock_bars db));
        let symbols := StockBar.symbol <$> active_symbols in
        mret symbols)
       (λ e, mret []))
    session_close.

(** The loop body of the [alphabetical] branch: [grouped] is
    [grouped_stock_table]. *)
Fixpoint group_by_starting_letter (stock_table_list grouped : list string)
  : result (list string) :=
  match stock_table_list with
  | [] => inr grouped
  | symbol :: rest =>
      match getitem0 symbol with
      | inl e => inl e
      | inr c =>
          let starting_letter := upper c in
          if decide (starting_letter ∈ grouped)
          then group_by_starting_letter rest grouped
          else group_by_starting_letter rest (grouped ++ [starting_letter])
      end
  end.

Definition lift {A} (r : result A) : M A := λ s, (r, s).

Definition load_stock_table_list (group_by : option string) : M (list string) :=
  try_finally
    (try_except
       (stock_table ← session_query dim_stocks;
        let stock_table_list := Stock.symbol <$> stock_table in
        if decide (group_by = Some "alphabetical")
        then
          let stock_table_list := sort stock_table_list in
          grouped_stock_table ← lift (group_by_starting_letter stock_table_list []);
          mret grouped_stock_table
        else mret stock_table_list)
       (λ e, mret []))
    session_close.

Definition load_stock_starting_by (starting_letter : string) : M (list string) :=
  try_finally
    (try_except
       (stock_table ← session_query (λ db,
          filter (λ r, like (Stock.symbol r) (starting_letter +:+ "%") = true) (dim_stocks db));
        let stock_table_list := Stock.symbol <$> stock_table in
        mret stock_table_list)
       (λ e, mret []))
    session_close.

(** ** Inserting newly observed symbols *)

(** The select of the statement below: [SELECT DISTINCT symbol FROM
    fact_stock_bars WHERE symbol NOT IN (SELECT symbol FROM dim_stocks)] *)
Definition new_stock_symbols (db : DB) : list string :=
  let known := Stock.symbol <$> dim_stocks db in
  remove_dups
    (StockBar.symbol <$>
       filter (λ bar, StockBar.symbol bar ∉ known) (fact_stock_bars db)).

(** [INSERT INTO dim_stocks (symbol) SELECT ...] *)
Definition insert_new_stocks_stmt (db : DB) : DB :=
  mkDB (fact_stock_bars db)
       (dim_stocks db ++ (Stock.mk <$> new_stock_symbols db))
       (agg_stock_bars db).

Definition insert_new_stocks : M unit :=
  session_execute (λ db, inr (insert_new_stocks_stmt db));;
  session_commit.

(** ** Backfill and aggregation operations *)

(** The [where] clause of the delete on [StockBar]. *)
Definition imputed_in_range (start_time end_time : datetime) (bar : StockBar.t) : bool :=
  (start_time <=? StockBar.created_at bar) &&
  (StockBar.created_at bar <? end_time) &&
  bool_decide (StockBar.is_imputed bar = true).

(** The [where] clause of the delete on [StockBarAggregate]. *)
Definition aggregate_in_range (start_time end_time : datetime) (aggregation : string)
    (row : StockBarAggregate.t) : bool :=
  (start_time <=? StockBarAggregate.created_at row) &&
  (StockBarAggregate.created_at row <? end_time) &&
  bool_decide (StockBarAggregate.aggregation row = aggregation).

Definition delete_stock_bars (start_time end_time : datetime) (db : DB) : DB :=
  mkDB (delete_where (imputed_in_range start_time end_time) (fact_stock_bars db))
       (dim_stocks db) (agg_stock_bars db).

Definition delete_stock_bar_aggregates (start_time end_time : datetime)
    (aggregation : string) (db : DB) : DB :=
  mkDB (fact_stock_bars db) (dim_stocks db)
       (delete_where (aggregate_in_range start_time end_time aggregation) (agg_stock_bars db)).

(** *** The float arithmetic of [expected_minutes]

    [(end_time - start_time).total_seconds()] is a Python [float], an IEEE
    754 binary64.  A finite binary64 is written [(m, e)] for [m * 2^e]. *)
Definition float64 : Type := (Z * Z)%type.

(** [a / b] rounded to the nearest integer, ties to the even one
    ([0 <= a], [0 < b]). *)
Definition round_half_even (a b : Z) : Z :=
  let d := a / b in
  let r := a mod b in
  if 2 * r <? b then d
  else if b <? 2 * r then d + 1
  else if Z.even d then d else d + 1.

(** The exponent of the binary64 nearest to [p / q]: the [e] with
    [2^52 <= p / (q * 2^e) < 2^53], that is [floor (log2 (p / q)) - 52]
    ([0 < p], [0 < q < 2^64]; no quotient met here is subnormal). *)
Definition float_exponent (p q : Z) : Z := Z.log2 (p * 2 ^ 64 / q) - 64 - 52.

(** [a / q] on two [int]s ([0 < q]): CPython returns the binary64 nearest to
    the exact quotient, ties to even, with the sign of [a]. *)
Definition int_true_divide (a q : Z) : float64 :=
  if a =? 0 then (0, 0)
  else
    let p := Z.abs a in
    let e := float_exponent p q in
    let m := if e <? 0 then round_half_even (p * 2 ^ (- e)) q
             else round_half_even p (q * 2 ^ e) in
    (Z.sgn a * m, e).

(** [td.total_seconds()] of a [timedelta] of [td] microseconds: the integer
    number of microseconds divided by [10**6].  A [timedelta] is shorter
    than [10^9] days, far from overflow. *)
Definition total_seconds (td : Z) : float64 := int_true_divide td 1000000.

(** [int(x // w)] for a float [x] and an [int] [0 < w]: the floor of the
    quotient, which float floor division computes without a rounding error
    (it subtracts the exact [fmod] first) on the values a [timedelta] has. *)
Definition int_floordiv (x : float64) (w : Z) : Z :=
  let '(m, e) := x in
  if e <? 0 then m / (w * 2 ^ (- e)) else m * 2 ^ e / w.

(** [int((end_time - start_time).total_seconds() // 60)] *)
Definition expected_minutes (start_time end_time : datetime) : Z :=
  int_floordiv (total_seconds (end_time - start_time)) 60.

Global Arguments expected_minutes : simpl never.

(** The common table expression [counted_bars]: one row [(symbol,
    actual_count)] for each symbol that has a non-imputed bar in range. *)
Definition counted_bars (start_time end_time : datetime) (bars : list StockBar.t)
  : list (string * Z) :=
  let rows :=
    filter (λ bar, start_time ≤ StockBar.created_at bar
                   ∧ StockBar.created_at bar < end_time
                   ∧ StockBar.is_imputed bar = false) bars in
  (λ sym, (sym, Z.of_nat (length (filter (λ bar, StockBar.symbol bar = sym) rows))))
    <$> remove_dups (StockBar.symbol <$> rows).

(** [dim_stocks ds LEFT JOIN counted_bars cb ON ds.symbol = cb.symbol]: a
    stock without a partner is paired with NULL. *)
Definition left_join_counted (stocks : list Stock.t) (cbs : list (string * Z))
  : list (Stock.t * option Z) :=
  stocks ≫= λ ds,
    match filter (λ cb, Stock.symbol ds = cb.1) cbs with
    | [] => [(ds, None)]
    | matches => (λ cb, (ds, Some cb.2)) <$> matches
    end.

(** [COALESCE(x, d)] *)
Definition coalesce (x : option Z) (d : Z) : Z := from_option id d x.

(** [symbols_query] with its three bound parameters; the rows it returns. *)
Definition symbols_query (start_time end_time : datetime) (expected : Z) (db : DB)
  : list string :=
  (λ row, Stock.symbol row.1) <$>
    filter (λ row, coalesce row.2 0 < expected)
      (left_join_counted (dim_stocks db)
         (counted_bars start_time end_time (fact_stock_bars db))).

Section Collaborators.

(** The four query templates read from the [.sql] files beside the module,
    applied to their bound parameters.  Their text is not part of the
    module: each is an arbitrary statement that may fail. *)
Variable backfill_fact_stock_bars_sql : datetime → datetime → DB → result DB.
Variable agg_stock_bars_candles_sql : datetime → datetime → string → DB → result DB.
Variable agg_backfill_stock_bars_sql : datetime → datetime → string → DB → result DB.
Variable agg_stock_bars_sql : datetime → datetime → string → DB → result DB.

(** [utils.brokers.alpaca_market.alpaca_rest_api.get_stock_data] *)
Variable get_stock_data : datetime → datetime → list string → M unit.

Definition run_backfill_fact_stock_bars (start_time end_time : datetime) : M unit :=
  let sql_query := backfill_fact_stock_bars_sql in
  try_except
    (let delete_stmt := delete_stock_bars start_time end_time in
     session_execute (λ db, inr (delete_stmt db));;
     session_commit;;
     session_execute (sql_query start_time end_time);;
     session_commit)
    (λ e, session_rollback;; raise e).

Definition run_backfill_fact_stock_bars_api (start_time end_time : datetime) : M unit :=
  let expected_minutes := expected_minutes start_time end_time in
  result ← session_query (symbols_query start_time end_time expected_minutes);
  let symbols_list := result in
  get_stock_data start_time end_time symbols_list.

Definition run_agg_stock_bars_candles (start_time end_time : datetime)
    (aggregation : string) : M unit :=
  let sql_query := agg_stock_bars_candles_sql in
  try_except
    (let delete_stmt := delete_stock_bar_aggregates start_time end_time aggregation in
     session_execute (λ db, inr (delete_stmt db));;
     session_commit;;
     session_execute (sql_query start_time end_time aggregation);;
     session_commit)
    (λ e, session_rollback;; raise e).

Definition run_agg_backfill_stock_bars (start_time end_time : datetime)
    (aggregation : string) : M unit :=
  let sql_query := agg_backfill_stock_bars_sql in
  try_except
    (let delete_stmt := delete_stock_bar_aggregates start_time end_time aggregation in
     session_execute (λ db, inr (delete_stmt db));;
     session_commit;;
     session_execute (sql_query start_time end_time aggregation);;
     session_commit)
    (λ e, session_rollback;; raise e).

Definition run_agg_stock_bars (start_time end_time : datetime)
    (aggregation : string) : M unit :=
  let sql_query := agg_stock_bars_sql in
  try_except
    (let delete_stmt := delete_stock_bar_aggregates start_time end_time aggregation in
     session_execute (λ db, inr (delete_stmt db));;
     session_commit;;
     session_execute (sql_query start_time end_time aggregation);;
     session_commit)
    (λ e, session_rollback;; raise e).

End Collaborators.

(** ** Outcomes and sample data used in the statements below *)

(** What the delete-then-recompute shape does on a healthy connection: the
    recompute query sees the table after the committed delete, and a failure
    of the recompute leaves that state behind. *)
Definition after_recompute (deleted : DB) (recomputed : result DB) : result unit * Session :=
  match recomputed with
  | inl e => (inl e, mkSession deleted deleted None)
  | inr db => (inr (), mkSession db db None)
  end.

(** A write operation whose first statement the connection refuses with
    [e]: the handler rolls back and raises [e] again. *)
Definition refused (s : Session) (e : exn) : result unit * Session :=
  (inl e, mkSession (committed s) (committed s) (Some e)).

(** A session on a store whose only rows are the given stocks. *)
Definition sample_session (stocks : list string) : Session :=
  let db := mkDB [] (Stock.mk <$> stocks) [] in mkSession db db None.

Definition sample_bars : list StockBar.t :=
  [ StockBar.mk "AAPL" 5 true [];
    StockBar.mk "AAPL" 5 false [];
    StockBar.mk "AAPL" 50 true [];
    StockBar.mk "BBY" 7 false [] ].

Definition sample_aggregates : list StockBarAggregate.t :=
  [ StockBarAggregate.mk "AAPL" 5 "5min" [];
    StockBarAggregate.mk "AAPL" 5 "1hour" [];
    StockBarAggregate.mk "AAPL" 50 "5min" [] ].

Definition sample_store : DB :=
  mkDB sample_bars [Stock.mk "AAPL"] sample_aggregates.

Definition sample_store_session : Session :=
  mkSession sample_store sample_store None.

Definition forced_failure : exn := DBAPIError "forced failure".

(** A recompute query that always fails. *)
Definition failing_sql : datetime → datetime → DB → result DB :=
  λ _ _ _, inl forced_failure.

Definition failing_agg_sql : datetime → datetime → string → DB → result DB :=
  λ _ _ _ _, inl forced_failure.

(** The number of non-imputed bars of a symbol with [created_at] in
    [[start_time, end_time)]. *)
Definition non_imputed_count (start_time end_time : datetime) (bars : list StockBar.t)
    (sym : string) : Z :=
  Z.of_nat (length (filter
    (λ bar, StockBar.symbol bar = sym
            ∧ start_time ≤ StockBar.created_at bar
            ∧ StockBar.created_at bar < end_time
            ∧ StockBar.is_imputed bar = false) bars)).

(** A collaborator that records nothing and succeeds. *)
Definition no_fetch : datetime → datetime → list string → M unit :=
  λ _ _ _, mret ().

(** The characters that [LIKE] does not read literally. *)
Definition like_special (c : ascii) : bool :=
  bool_decide (c = "%"%char) || bool_decide (c = "_"%char) || bool_decide (c = "\"%char).

(** A prefix without any character special to [LIKE]. *)
Definition plain_prefix (prefix : string) : Prop :=
  Forall (λ c, like_special c = false) (String.list_ascii_of_string prefix).

(** [s.startswith(prefix)]: the case-sensitive prefix test. *)
Definition startswith (s prefix : string) : bool := String.prefix prefix s.

(** [c] is the uppercased first letter of one of the symbols. *)
Definition is_starting_letter (symbols : list string) (c : string) : Prop :=
  ∃ sym c0, sym ∈ symbols ∧ getitem0 sym = inr c0 ∧ c = upper c0.

(** No symbol begins with one of the letters a-z. *)
Definition no_lowercase_initial (symbols : list string) : Prop :=
  ∀ sym c0, sym ∈ symbols → getitem0 sym = inr c0 → upper c0 = c0.

(** The key the grouping loop computes for a non-empty symbol. *)
Definition initial (sym : string) : string :=
  match sym with
  | EmptyString => EmptyString
  | String c _ => upper (String c EmptyString)
  end.

(** The grouping loop on keys already computed. *)
Definition collect_new (grouped keys : list string) : list string :=
  foldl (λ grouped key, if decide (key ∈ grouped) then grouped else grouped ++ [key])
    grouped keys.

(** ** The connection provider ([utils/database/db.py]) *)

(** [os.getenv(key)] in the environment left by [dotenv.load_dotenv()]. *)
Definition getenv (env : gmap string string) (key : string) : option string :=
  env !! key.

(** How an f-string renders what [os.getenv] returned: a missing variable
    prints as the four letters of [None]. *)
Definition fstr (v : option string) : string := default "None" v.

Definition DATABASE_URL (env : gmap string string) : string :=
  let ENV := getenv env "TRADING_ENV" in
  let DATABASE_USER := getenv env "TRADING_POSTGRES_USER" in
  let DATABASE_PASSWORD := getenv env "TRADING_POSTGRES_PASSWORD" in
  let DATABASE_HOST := getenv env ("TRADING_POSTGRES_HOST_" +:+ fstr ENV) in
  let DATABASE_PORT := getenv env ("TRADING_POSTGRES_PORT_" +:+ fstr ENV) in
  let DATABASE_DB := getenv env "TRADING_POSTGRES_DB" in
  "postgresql+psycopg2://" +:+ fstr DATABASE_USER +:+ ":" +:+ fstr DATABASE_PASSWORD
    +:+ "@" +:+ fstr DATABASE_HOST +:+ ":" +:+ fstr DATABASE_PORT
    +:+ "/" +:+ fstr DATABASE_DB.

(** ** The entry point ([if __name__ == "__main__"]) *)

Definition main (get_stock_data : datetime → datetime → list string → M unit) : M unit :=
  let start_time := dt 2025 4 1 0 0 in
  let end_time := dt 2025 5 5 23 59 in
  run_backfill_fact_stock_bars_api get_stock_data start_time end_time.

(** ** Further vocabulary for the statements below *)

(** The session a read leaves behind: [session.close()] has discarded the
    open transaction. *)
Definition closed (s : Session) : Session :=
  mkSession (committed s) (committed s) (fault s).

(** An operation ended without an open transaction on the connection it was
    given. *)
Definition ends_clean (s : Session) (out : result unit * Session) : Prop :=
  pending out.2 = committed out.2 ∧ fault out.2 = fault s.

(** A bar that the count of [symbols_query] passes over. *)
Definition uncounted (start_time end_time : datetime) (bar : StockBar.t) : Prop :=
  StockBar.is_imputed bar = true
  ∨ ¬ (start_time ≤ StockBar.created_at bar < end_time).

(** A session with an uncommitted insert pending, on a connection that
    refuses every statement. *)
Definition sample_faulty_session : Session :=
  mkSession sample_store (insert_new_stocks_stmt sample_store) (Some forced_failure).

(** A prefix without the escape character of [LIKE]. *)
Definition no_backslash (prefix : string) : Prop :=
  "\"%char ∉ String.list_ascii_of_string prefix.

(** [s.isascii()]: every character of [s] has a code below 128. *)
Definition isascii (s : string) : Prop :=
  Forall (λ c, (N_of_ascii c < 128)%N) (String.list_ascii_of_string s).

(** * Properties *)

(** ** Sanity checks of the fragments *)

Example dt_matches_calendar :
  dt 1970 1 1 0 0 = 0
  ∧ dt 2025 4 1 0 0 = 1743465600 * 1000000
  ∧ dt 2025 5 5 23 59 - dt 2025 4 1 0 0 = ((34 * 24 + 23) * 60 + 59) * 60000000.
Proof. repeat split; reflexivity. Qed.

Example like_reads_the_pattern :
  like "AAPL" "A%" = true ∧ like "aapl" "A%" = false
  ∧ like "AAPL" "A_PL" = true ∧ like "A_PL" "A\_PL" = true
  ∧ like "AAPL" "A\_PL" = false ∧ like "AAPL" "AAPL%" = true.
Proof. repeat split; reflexivity. Qed.

Example upper_acts_on_letters :
  upper "aZ9_b" = "AZ9_B" ∧ getitem0 "bby" = inr "b" ∧ sort ["b"; "C"; "AB"; "A"] = ["A"; "AB"; "C"; "b"].
Proof. repeat split; reflexivity. Qed.

(** [timedelta(microseconds=us).total_seconds()] for 1, 100000, -1500000
    and 3600000000 microseconds: the floats [0x1.0c6f7a0b5ed8dp-20],
    [0x1.999999999999ap-4], [-0x1.8p+0] and [0x1.c2p+11]. *)
Example total_seconds_is_the_nearest_binary64 :
  total_seconds 1 = (4722366482869645, -72)
  ∧ total_seconds 100000 = (7205759403792794, -56)
  ∧ total_seconds (-1500000) = (-6755399441055744, -52)
  ∧ total_seconds 3600000000 = (7916483719987200, -41)
  ∧ int_floordiv (total_seconds (-1500000)) 60 = -1
  ∧ int_floordiv (total_seconds 3600000000) 60 = 60.
Proof. repeat split; by vm_compute. Qed.

(** The first minute boundary past [2^34] seconds: one microsecond before
    it the float is already the boundary itself. *)
Example total_seconds_rounds_past_2_34_seconds :
  2 ^ 34 * 1000000 < 17179869239999999
  ∧ 17179869239999999 = 60000000 * 286331153 + 59999999
  ∧ total_seconds 17179869239999999 = (17179869240 * 2 ^ 18, -18)
  ∧ expected_minutes 0 17179869239999999 = 286331154.
Proof. repeat split; by vm_compute. Qed.

(** ** Running a block against a session *)

Ltac run_session :=
  unfold try_finally, try_except, session_close, session_rollback,
    session_commit, session_execute, session_query, lift, raise,
    mbind, M_bind, mret, M_ret; simpl.

Lemma run_backfill_fact_stock_bars_healthy sql get_data start_time end_time s :
  fault s = None →
  run_backfill_fact_stock_bars sql start_time end_time s =
    (let deleted := delete_stock_bars start_time end_time (pending s) in
     after_recompute deleted (sql start_time end_time deleted))
  ∧ run_backfill_fact_stock_bars_api get_data start_time end_time s =
    get_data start_time end_time
      (symbols_query start_time end_time (expected_minutes start_time end_time) (pending s)) s.
Proof.
  intros Hs. unfold run_backfill_fact_stock_bars, run_backfill_fact_stock_bars_api.
  run_session. rewrite Hs. simpl. split; [|done].
  by destruct (sql _ _ _).
Qed.

Lemma run_aggregations_healthy candles backfill generic start_time end_time aggregation s :
  fault s = None →
  let deleted := delete_stock_bar_aggregates start_time end_time aggregation (pending s) in
  run_agg_stock_bars_candles candles start_time end_time aggregation s =
    after_recompute deleted (candles start_time end_time aggregation deleted)
  ∧ run_agg_backfill_stock_bars backfill start_time end_time aggregation s =
    after_recompute deleted (backfill start_time end_time aggregation deleted)
  ∧ run_agg_stock_bars generic start_time end_time aggregation s =
    after_recompute deleted (generic start_time end_time aggregation deleted).
Proof.
  intros Hs.
  unfold run_agg_stock_bars_candles, run_agg_backfill_stock_bars, run_agg_stock_bars.
  run_session. rewrite Hs. simpl.
  by destruct (candles _ _ _ _), (backfill _ _ _ _), (generic _ _ _ _).
Qed.

(** A connection that fails the delete itself: nothing was executed, the
    rollback restores the committed state and the error is raised again. *)
Lemma run_backfill_fact_stock_bars_faulty sql get_data start_time end_time s e :
  fault s = Some e →
  run_backfill_fact_stock_bars sql start_time end_time s = refused s e
  ∧ run_backfill_fact_stock_bars_api get_data start_time end_time s = (inl e, s).
Proof.
  intros Hs. unfold run_backfill_fact_stock_bars, run_backfill_fact_stock_bars_api, refused.
  run_session. rewrite Hs. simpl. by rewrite Hs.
Qed.

Lemma run_aggregations_faulty candles backfill generic start_time end_time aggregation s e :
  fault s = Some e →
  run_agg_stock_bars_candles candles start_time end_time aggregation s = refused s e
  ∧ run_agg_backfill_stock_bars backfill start_time end_time aggregation s = refused s e
  ∧ run_agg_stock_bars generic start_time end_time aggregation s = refused s e.
Proof.
  intros Hs.
  unfold run_agg_stock_bars_candles, run_agg_backfill_stock_bars, run_agg_stock_bars, refused.
  run_session. rewrite Hs. simpl. by rewrite Hs.
Qed.

(** ** Deleting rows by a filter *)

Section delete_where_facts.
Context {A : Type} (cond : A → bool).

Lemma elem_of_delete_where rows r :
  r ∈ delete_where cond rows ↔ r ∈ rows ∧ cond r = false.
Proof. unfold delete_where. rewrite list_elem_of_filter. tauto. Qed.

(** Rows that the condition spares keep their order and multiplicity. *)
Lemma delete_where_spares (keep : A → Prop) `{∀ r, Decision (keep r)} rows :
  (∀ r, keep r → cond r = false) →
  filter keep (delete_where cond rows) = filter keep rows.
Proof.
  intros Hkeep. unfold delete_where.
  induction rows as [|r rows IH]; [done|].
  rewrite (filter_cons (λ r, cond r = false)).
  destruct (decide (cond r = false)) as [Hr|Hr].
  - rewrite !filter_cons. destruct (decide (keep r)); by rewrite IH.
  - rewrite IH, filter_cons. destruct (decide (keep r)) as [Hk|]; [|done].
    by apply Hkeep in Hk.
Qed.

Lemma delete_where_none rows :
  (∀ r, r ∈ rows → cond r = false) → delete_where cond rows = rows.
Proof.
  intros Hall. unfold delete_where.
  induction rows as [|r rows IH]; [done|].
  rewrite filter_cons, decide_True by (apply Hall; left).
  f_equal. apply IH. intros r' Hr'. apply Hall. by right.
Qed.
End delete_where_facts.

Lemma imputed_in_range_true start_time end_time bar :
  imputed_in_range start_time end_time bar = true ↔
  start_time ≤ StockBar.created_at bar < end_time ∧ StockBar.is_imputed bar = true.
Proof.
  unfold imputed_in_range.
  rewrite !andb_true_iff, Z.leb_le, Z.ltb_lt, bool_decide_eq_true. tauto.
Qed.

Lemma aggregate_in_range_true start_time end_time aggregation row :
  aggregate_in_range start_time end_time aggregation row = true ↔
  start_time ≤ StockBarAggregate.created_at row < end_time
  ∧ StockBarAggregate.aggregation row = aggregation.
Proof.
  unfold aggregate_in_range.
  rewrite !andb_true_iff, Z.leb_le, Z.ltb_lt, bool_decide_eq_true. tauto.
Qed.

(** ** The delete step of the backfill and aggregation operations *)

(** C5: the delete step of [run_backfill_fact_stock_bars] removes from
    StockBar exactly the rows with [created_at] in [[start_time, end_time)]
    and [is_imputed = true]: the table it commits and hands to the recompute
    query still holds every non-imputed row and every row outside the
    interval, in the same order and multiplicity, and the other tables are
    untouched (a connection that refuses the delete changes nothing). *)
Theorem backfill_deletes_only_imputed_in_range sql start_time end_time s :
  let before := fact_stock_bars (pending s) in
  let deleted := delete_stock_bars start_time end_time (pending s) in
  run_backfill_fact_stock_bars sql start_time end_time s =
    match fault s with
    | None => after_recompute deleted (sql start_time end_time deleted)
    | Some e => refused s e
    end
  ∧ (∀ bar, bar ∈ fact_stock_bars deleted ↔
       bar ∈ before ∧
       ¬ (start_time ≤ StockBar.created_at bar < end_time ∧ StockBar.is_imputed bar = true))
  ∧ filter (λ bar, StockBar.is_imputed bar = false
                   ∨ ¬ (start_time ≤ StockBar.created_at bar < end_time))
      (fact_stock_bars deleted)
    = filter (λ bar, StockBar.is_imputed bar = false
                     ∨ ¬ (start_time ≤ StockBar.created_at bar < end_time)) before
  ∧ dim_stocks deleted = dim_stocks (pending s)
  ∧ agg_stock_bars deleted = agg_stock_bars (pending s).
Proof.
  intros before deleted. split; [|split; [|split]].
  - destruct (fault s) as [e|] eqn:Hs.
    + by destruct (run_backfill_fact_stock_bars_faulty sql no_fetch
                     start_time end_time s e Hs) as [-> _].
    + by destruct (run_backfill_fact_stock_bars_healthy sql no_fetch
                     start_time end_time s Hs) as [-> _].
  - intros bar. subst deleted before. simpl.
    rewrite elem_of_delete_where, <- imputed_in_range_true.
    by rewrite not_true_iff_false.
  - subst deleted before. simpl. apply delete_where_spares. intros bar Hkeep.
    apply not_true_is_false. rewrite imputed_in_range_true.
    intros [Hrange Himp]. destruct Hkeep as [Hk|Hk]; [congruence|tauto].
  - done.
Qed.

Lemma backfill_deletes_only_imputed_in_range_witness :
  run_backfill_fact_stock_bars failing_sql 0 10 sample_store_session =
    after_recompute (delete_stock_bars 0 10 sample_store)
      (failing_sql 0 10 (delete_stock_bars 0 10 sample_store))
  ∧ fact_stock_bars (delete_stock_bars 0 10 sample_store)
    = [ StockBar.mk "AAPL" 5 false [];
        StockBar.mk "AAPL" 50 true [];
        StockBar.mk "BBY" 7 false [] ].
Proof.
  split; [|reflexivity].
  exact (proj1 (backfill_deletes_only_imputed_in_range
                  failing_sql 0 10 sample_store_session)).
Defined.

(** C6: for every store, the delete step of [run_agg_stock_bars] removes no
    StockBarAggregate row of another aggregation and none outside
    [[start_time, end_time)]: the table it commits and hands to the recompute
    query keeps those rows in order and multiplicity, and when no row of the
    aggregation lies in the range the delete changes nothing (a connection
    that refuses the delete changes nothing either). *)
Theorem agg_delete_isolated_by_filter sql start_time end_time aggregation s :
  let before := agg_stock_bars (pending s) in
  let deleted := delete_stock_bar_aggregates start_time end_time aggregation (pending s) in
  run_agg_stock_bars sql start_time end_time aggregation s =
    match fault s with
    | None => after_recompute deleted (sql start_time end_time aggregation deleted)
    | Some e => refused s e
    end
  ∧ (∀ row, row ∈ before →
       StockBarAggregate.aggregation row ≠ aggregation
       ∨ ¬ (start_time ≤ StockBarAggregate.created_at row < end_time) →
       row ∈ agg_stock_bars deleted)
  ∧ filter (λ row, StockBarAggregate.aggregation row ≠ aggregation
                   ∨ ¬ (start_time ≤ StockBarAggregate.created_at row < end_time))
      (agg_stock_bars deleted)
    = filter (λ row, StockBarAggregate.aggregation row ≠ aggregation
                     ∨ ¬ (start_time ≤ StockBarAggregate.created_at row < end_time)) before
  ∧ ((∀ row, row ∈ before →
        ¬ (start_time ≤ StockBarAggregate.created_at row < end_time
           ∧ StockBarAggregate.aggregation row = aggregation)) →
     deleted = pending s)
  ∧ fact_stock_bars deleted = fact_stock_bars (pending s)
  ∧ dim_stocks deleted = dim_stocks (pending s).
Proof.
  intros before deleted.
  assert (Hspared : ∀ row,
             StockBarAggregate.aggregation row ≠ aggregation
             ∨ ¬ (start_time ≤ StockBarAggregate.created_at row < end_time) →
             aggregate_in_range start_time end_time aggregation row = false).
  { intros row Hrow. apply not_true_is_false.
    rewrite aggregate_in_range_true. tauto. }
  split; [|split; [|split; [|split]]].
  - destruct (fault s) as [e|] eqn:Hs.
    + by destruct (run_aggregations_faulty sql sql sql
                     start_time end_time aggregation s e Hs) as (_ & _ & ->).
    + by destruct (run_aggregations_healthy sql sql sql
                     start_time end_time aggregation s Hs) as (_ & _ & ->).
  - intros row Hin Hrow. subst deleted. simpl.
    apply elem_of_delete_where. auto.
  - subst deleted before. simpl. by apply delete_where_spares.
  - intros Hnone. subst deleted before. unfold delete_stock_bar_aggregates.
    rewrite delete_where_none; [by destruct (pending s)|].
    intros row Hin. apply not_true_is_false.
    rewrite aggregate_in_range_true. by apply Hnone.
  - done.
Qed.

Lemma agg_delete_isolated_by_filter_witness :
  run_agg_stock_bars failing_agg_sql 100 200 "5min" sample_store_session =
    after_recompute (delete_stock_bar_aggregates 100 200 "5min" sample_store)
      (failing_agg_sql 100 200 "5min"
         (delete_stock_bar_aggregates 100 200 "5min" sample_store))
  ∧ delete_stock_bar_aggregates 100 200 "5min" sample_store = sample_store.
Proof.
  pose proof (agg_delete_isolated_by_filter
                failing_agg_sql 100 200 "5min" sample_store_session)
    as (Hrun & _ & _ & Hnone & _).
  split; [exact Hrun|]. apply Hnone.
  intros row Hin [[Hlo Hhi] _]. revert Hlo Hhi.
  simpl in Hin. unfold sample_aggregates in Hin.
  repeat (apply elem_of_cons in Hin as [->|Hin]; [simpl; lia|]).
  by apply elem_of_nil in Hin.
Defined.

(** ** Failure of the recompute step *)

(** C1, as stated, fails: with one imputed bar (resp. one aggregate row) in
    range and a recompute query that raises, each of the four operations
    raises the error again and leaves a committed store that differs from the
    one it started from, because the delete was committed before the
    recompute ran. *)
Lemma recompute_failure_keeps_delete_counterexample :
  (∃ s', run_backfill_fact_stock_bars failing_sql 0 10 sample_store_session
           = (inl forced_failure, s')
         ∧ committed s' ≠ committed sample_store_session)
  ∧ (∃ s', run_agg_stock_bars failing_agg_sql 0 10 "5min" sample_store_session
             = (inl forced_failure, s')
           ∧ committed s' ≠ committed sample_store_session)
  ∧ (∃ s', run_agg_stock_bars_candles failing_agg_sql 0 10 "5min" sample_store_session
             = (inl forced_failure, s')
           ∧ committed s' ≠ committed sample_store_session)
  ∧ (∃ s', run_agg_backfill_stock_bars failing_agg_sql 0 10 "5min" sample_store_session
             = (inl forced_failure, s')
           ∧ committed s' ≠ committed sample_store_session).
Proof.
  repeat split; eexists; (split; [vm_compute; reflexivity|]);
    vm_compute; intros Heq; discriminate Heq.
Qed.

(** C1, amended: on a healthy connection, when the recompute query raises on
    the table left by the delete, each of the four operations raises that
    error again after a rollback that discards only the recompute; the delete,
    committed before, persists: committed and pending state both equal the
    store right after the delete. *)
Theorem recompute_failure_keeps_delete
    backfill candles agg_backfill generic start_time end_time aggregation s e :
  fault s = None →
  let bars_deleted := delete_stock_bars start_time end_time (pending s) in
  let aggs_deleted := delete_stock_bar_aggregates start_time end_time aggregation (pending s) in
  (backfill start_time end_time bars_deleted = inl e →
   run_backfill_fact_stock_bars backfill start_time end_time s
     = (inl e, mkSession bars_deleted bars_deleted None))
  ∧ (generic start_time end_time aggregation aggs_deleted = inl e →
     run_agg_stock_bars generic start_time end_time aggregation s
       = (inl e, mkSession aggs_deleted aggs_deleted None))
  ∧ (candles start_time end_time aggregation aggs_deleted = inl e →
     run_agg_stock_bars_candles candles start_time end_time aggregation s
       = (inl e, mkSession aggs_deleted aggs_deleted None))
  ∧ (agg_backfill start_time end_time aggregation aggs_deleted = inl e →
     run_agg_backfill_stock_bars agg_backfill start_time end_time aggregation s
       = (inl e, mkSession aggs_deleted aggs_deleted None)).
Proof.
  intros Hs bars_deleted aggs_deleted.
  destruct (run_backfill_fact_stock_bars_healthy backfill no_fetch
              start_time end_time s Hs) as [Hbackfill _].
  destruct (run_aggregations_healthy candles agg_backfill generic
              start_time end_time aggregation s Hs) as (Hcandles & Hagg & Hgeneric).
  subst bars_deleted aggs_deleted.
  repeat split; intros Hfail.
  - rewrite Hbackfill. simpl. by rewrite Hfail.
  - rewrite Hgeneric. by rewrite Hfail.
  - rewrite Hcandles. by rewrite Hfail.
  - rewrite Hagg. by rewrite Hfail.
Qed.

Lemma recompute_failure_keeps_delete_witness :
  fault sample_store_session = None
  ∧ failing_sql 0 10 (delete_stock_bars 0 10 sample_store) = inl forced_failure
  ∧ run_backfill_fact_stock_bars failing_sql 0 10 sample_store_session
    = (inl forced_failure,
       mkSession (delete_stock_bars 0 10 sample_store)
         (delete_stock_bars 0 10 sample_store) None).
Proof.
  split; [reflexivity|]. split; [reflexivity|].
  exact (proj1 (recompute_failure_keeps_delete
                  failing_sql failing_agg_sql failing_agg_sql failing_agg_sql
                  0 10 "5min" sample_store_session forced_failure eq_refl)
           eq_refl).
Defined.

(** ** The re-fetch selection of [run_backfill_fact_stock_bars_api] *)

Lemma filter_keyed_rows {V} (c : string → V) (k : string) (keys : list string) :
  NoDup keys →
  filter (λ cb : string * V, k = cb.1) ((λ sym, (sym, c sym)) <$> keys)
  = if decide (k ∈ keys) then [(k, c k)] else [].
Proof.
  induction 1 as [|x keys Hx Hnodup IH]; [done|].
  rewrite fmap_cons, filter_cons. simpl. rewrite IH.
  destruct (decide (k = x)) as [->|Hne].
  - rewrite decide_False by done. by rewrite decide_True by left.
  - destruct (decide (k ∈ keys)) as [Hin|Hnin].
    + by rewrite decide_True by (by right).
    + rewrite decide_False; [done|]. by intros [?|?]%elem_of_cons.
Qed.

Lemma filter_absent_key {A} (key : A → string) (k : string) (rows : list A) :
  k ∉ key <$> rows → filter (λ r, key r = k) rows = [].
Proof.
  intros Hk. induction rows as [|r rows IH]; [done|].
  rewrite fmap_cons, not_elem_of_cons in Hk. destruct Hk as [Hne Hk].
  rewrite filter_cons, decide_False by done. auto.
Qed.

(** The join pairs each stock with exactly one count, NULL standing for 0. *)
Lemma left_join_counted_row start_time end_time bars ds :
  ∃ count,
    left_join_counted [ds] (counted_bars start_time end_time bars) = [(ds, count)]
    ∧ coalesce count 0 = non_imputed_count start_time end_time bars (Stock.symbol ds).
Proof.
  unfold left_join_counted, counted_bars. simpl. rewrite app_nil_r.
  rewrite filter_keyed_rows by apply NoDup_remove_dups.
  unfold non_imputed_count.
  rewrite <- (list_filter_filter (λ bar, StockBar.symbol bar = Stock.symbol ds)).
  destruct (decide (Stock.symbol ds ∈ _)) as [Hin|Hnin].
  - eexists. split; [reflexivity|]. done.
  - exists None. split; [done|]. simpl.
    rewrite elem_of_remove_dups in Hnin. by rewrite filter_absent_key.
Qed.

Lemma left_join_counted_cons ds stocks cbs :
  left_join_counted (ds :: stocks) cbs
  = left_join_counted [ds] cbs ++ left_join_counted stocks cbs.
Proof. unfold left_join_counted. simpl. by rewrite app_nil_r. Qed.

Lemma symbols_query_selects start_time end_time expected db :
  symbols_query start_time end_time expected db =
  Stock.symbol <$>
    filter (λ ds, non_imputed_count start_time end_time (fact_stock_bars db)
                    (Stock.symbol ds) < expected)
      (dim_stocks db).
Proof.
  unfold symbols_query. induction (dim_stocks db) as [|ds stocks IH]; [done|].
  rewrite left_join_counted_cons.
  destruct (left_join_counted_row start_time end_time (fact_stock_bars db) ds)
    as (count & -> & Hcount).
  simpl. rewrite !filter_cons. simpl. rewrite Hcount.
  destruct (decide (_ < expected)); simpl; [f_equal|]; exact IH.
Qed.

Lemma non_imputed_count_nonneg start_time end_time bars sym :
  0 ≤ non_imputed_count start_time end_time bars sym.
Proof. unfold non_imputed_count. lia. Qed.

(** *** Rounding to binary64 and the minute boundaries *)

Lemma round_half_even_cases a b :
  round_half_even a b = a / b
  ∨ round_half_even a b = a / b + 1 ∧ b ≤ 2 * (a mod b).
Proof.
  unfold round_half_even.
  destruct (Z.ltb_spec (2 * (a mod b)) b); [by left|].
  destruct (Z.ltb_spec b (2 * (a mod b))); [right; lia|].
  destruct (Z.even (a / b)); [by left | right; lia].
Qed.

Lemma round_half_even_up a b : b < 2 * (a mod b) → round_half_even a b = a / b + 1.
Proof.
  intros Hr. unfold round_half_even.
  destruct (Z.ltb_spec (2 * (a mod b)) b); [lia|].
  destruct (Z.ltb_spec b (2 * (a mod b))); [done | lia].
Qed.

(** Rounding never crosses an integer. *)
Lemma round_half_even_lower a b k : 0 < b → b * k ≤ a → k ≤ round_half_even a b.
Proof.
  intros Hb Hk. pose proof (Z.div_le_lower_bound a b k Hb Hk).
  destruct (round_half_even_cases a b) as [->|[-> _]]; lia.
Qed.

Lemma round_half_even_upper a b k : 0 < b → a ≤ b * k → round_half_even a b ≤ k.
Proof.
  intros Hb Hk.
  pose proof (Z.div_mod a b ltac:(lia)). pose proof (Z.mod_pos_bound a b Hb).
  destruct (round_half_even_cases a b) as [->|[-> ?]]; nia.
Qed.

(** A quotient more than one half away from an integer is not rounded to it. *)
Lemma round_half_even_above a b s k :
  0 < b → b < 2 * s → b * k + s ≤ a → k + 1 ≤ round_half_even a b.
Proof.
  intros Hb Hs Hk.
  pose proof (Z.div_mod a b ltac:(lia)). pose proof (Z.mod_pos_bound a b Hb).
  destruct (Z.le_gt_cases (k + 1) (a / b)) as [Hd|Hd].
  - pose proof (round_half_even_lower a b (a / b) Hb ltac:(lia)). lia.
  - assert (a / b = k) as Hq by nia.
    rewrite round_half_even_up; nia.
Qed.

Lemma round_half_even_below a b s k :
  0 < b → b < 2 * s → a ≤ b * k - s → round_half_even a b ≤ k - 1.
Proof.
  intros Hb Hs Hk.
  pose proof (Z.div_mod a b ltac:(lia)). pose proof (Z.mod_pos_bound a b Hb).
  destruct (round_half_even_cases a b) as [->|[-> ?]]; nia.
Qed.

(** Below [2^34] seconds the binary64 grid is finer than a microsecond. *)
Lemma float_exponent_small p :
  0 < p < 2 ^ 34 * 1000000 → float_exponent p 1000000 ≤ -19.
Proof.
  intros [Hp Hlt]. unfold float_exponent.
  assert (p * 2 ^ 64 / 1000000 < 2 ^ 98) as Hq.
  { apply Z.div_lt_upper_bound; [lia|]. change (2 ^ 98) with (2 ^ 34 * 2 ^ 64). nia. }
  assert (0 < p * 2 ^ 64 / 1000000) as Hq0.
  { apply Z.div_str_pos. lia. }
  apply Z.log2_lt_pow2 in Hq; lia.
Qed.

Lemma floor_unique a b n : 0 < b → b * n ≤ a < b * (n + 1) → a / b = n.
Proof. intros Hb Hn. symmetry. apply (Z.div_unique a b n (a - b * n)); lia. Qed.

(** On a range shorter than [2^34] seconds the float arithmetic loses
    nothing: [expected_minutes] is the floor of the exact quotient. *)
Lemma expected_minutes_exact start_time end_time :
  Z.abs (end_time - start_time) < 2 ^ 34 * 1000000 →
  expected_minutes start_time end_time = (end_time - start_time) / 60000000.
Proof.
  unfold expected_minutes, total_seconds, int_true_divide.
  generalize (end_time - start_time). intros td Hrange.
  destruct (Z.eqb_spec td 0) as [->|Hne]; [done|].
  pose proof (float_exponent_small (Z.abs td) ltac:(lia)) as He.
  assert (2 ^ 19 ≤ 2 ^ (- float_exponent (Z.abs td) 1000000)) as Hs
    by (apply Z.pow_le_mono_r; lia).
  set (e := float_exponent (Z.abs td) 1000000) in *.
  set (s := 2 ^ (- e)) in *. cbv zeta. unfold int_floordiv.
  destruct (Z.ltb_spec e 0); [|lia]. fold s.
  change (2 ^ 19) with 524288 in Hs.
  pose proof (Z.div_mod td 60000000 ltac:(lia)) as Hdm.
  pose proof (Z.mod_pos_bound td 60000000 ltac:(lia)) as Hmod.
  set (n := td / 60000000) in *.
  apply floor_unique; [lia|].
  destruct (Z.lt_total td 0) as [Hneg|[?|Hpos]]; [|lia|].
  - rewrite (Z.sgn_neg td), (Z.abs_neq td) by lia.
    destruct (Z.eq_dec (td mod 60000000) 0) as [H0|H0].
    + pose proof (round_half_even_lower (- td * s) 1000000 (60 * s * (- n))
        ltac:(lia) ltac:(nia)).
      pose proof (round_half_even_upper (- td * s) 1000000 (60 * s * (- n))
        ltac:(lia) ltac:(nia)). nia.
    + pose proof (round_half_even_above (- td * s) 1000000 s (60 * s * (- n - 1))
        ltac:(lia) ltac:(lia) ltac:(nia)).
      pose proof (round_half_even_upper (- td * s) 1000000 (60 * s * (- n))
        ltac:(lia) ltac:(nia)). nia.
  - rewrite (Z.sgn_pos td), (Z.abs_eq td) by lia.
    pose proof (round_half_even_lower (td * s) 1000000 (60 * s * n)
      ltac:(lia) ltac:(nia)).
    pose proof (round_half_even_below (td * s) 1000000 s (60 * s * (n + 1))
      ltac:(lia) ltac:(lia) ltac:(nia)). nia.
Qed.

Lemma expected_minutes_floor start_time end_time :
  Z.abs (end_time - start_time) < 2 ^ 34 * 1000000 →
  60000000 * expected_minutes start_time end_time ≤ end_time - start_time
    < 60000000 * (expected_minutes start_time end_time + 1).
Proof.
  intros Hrange. rewrite expected_minutes_exact by done.
  pose proof (Z.div_mod (end_time - start_time) 60000000).
  pose proof (Z.mod_pos_bound (end_time - start_time) 60000000). lia.
Qed.

(** Whatever its length, a range that does not run forward expects no
    minute: the float of a non-positive difference is not positive. *)
Lemma expected_minutes_nonpositive start_time end_time :
  end_time ≤ start_time → expected_minutes start_time end_time ≤ 0.
Proof.
  intros Hrange. assert (end_time - start_time ≤ 0) as Htd by lia. revert Htd.
  unfold expected_minutes, total_seconds, int_true_divide.
  generalize (end_time - start_time). clear Hrange. intros td Htd.
  destruct (Z.eqb_spec td 0) as [->|Hne]; [done|].
  rewrite (Z.sgn_neg td) by lia.
  set (e := float_exponent (Z.abs td) 1000000). cbv zeta. unfold int_floordiv.
  destruct (Z.ltb_spec e 0).
  - pose proof (Z.pow_pos_nonneg 2 (- e) ltac:(lia) ltac:(lia)).
    pose proof (round_half_even_lower (Z.abs td * 2 ^ (- e)) 1000000 0
      ltac:(lia) ltac:(nia)).
    apply Z.div_le_upper_bound; nia.
  - pose proof (Z.pow_pos_nonneg 2 e ltac:(lia) ltac:(lia)).
    pose proof (round_half_even_lower (Z.abs td) (1000000 * 2 ^ e) 0
      ltac:(nia) ltac:(nia)).
    apply Z.div_le_upper_bound; nia.
Qed.

(** A range shorter than one minute, of either sign, expects no minute. *)
Lemma expected_minutes_under_a_minute start_time end_time :
  end_time - start_time < 60000000 → expected_minutes start_time end_time ≤ 0.
Proof.
  intros Hrange. destruct (Z.le_gt_cases end_time start_time) as [Hle|Hgt].
  - by apply expected_minutes_nonpositive.
  - rewrite expected_minutes_exact by (change (2 ^ 34) with 17179869184; lia).
    rewrite Z.div_small; lia.
Qed.

(** C3, as stated, fails: [total_seconds()] is a float.  From
    0001-01-01T00:00:00 to 9999-12-31T23:59:59.999999 (Python's
    [datetime.min] and [datetime.max]) the exact difference is one
    microsecond short of 5258964960 minutes, the nearest binary64 is the full
    315537897600 seconds, and [expected_minutes] is 5258964960, which is not
    the floor 5258964959 of the range length in minutes. *)
Lemma expected_minutes_float_counterexample :
  let start_time := dt 1 1 1 0 0 in
  let end_time := dt 9999 12 31 23 59 + 59999999 in
  end_time - start_time = 60000000 * 5258964959 + 59999999
  ∧ total_seconds (end_time - start_time) = (315537897600 * 2 ^ 14, -14)
  ∧ expected_minutes start_time end_time = 5258964960
  ∧ ¬ (60000000 * expected_minutes start_time end_time ≤ end_time - start_time
        < 60000000 * (expected_minutes start_time end_time + 1)).
Proof.
  cbv zeta. split; [reflexivity|]. split; [by vm_compute|].
  assert (Hexp : expected_minutes (dt 1 1 1 0 0) (dt 9999 12 31 23 59 + 59999999)
                 = 5258964960) by (by vm_compute).
  split; [exact Hexp|]. rewrite Hexp. vm_compute. intros [Hle _]. by apply Hle.
Qed.

(** C3, amended: [expected_minutes] is the floor of the range length in
    minutes whenever the range is shorter than [2^34] seconds (about 544
    years) in either direction; and for every range the symbols handed to
    [get_stock_data] (once the connection has answered the query) are exactly
    the Stock symbols whose count of non-imputed bars with [created_at] in
    [[start_time, end_time)] is strictly below [expected_minutes] (a symbol
    without such bars counts 0), each once per Stock row.  The hour from
    2025-04-01T00:00 to 01:00 expects 60 minutes. *)
Theorem refetch_selects_symbols_below_expected get_stock_data start_time end_time s :
  let expected := expected_minutes start_time end_time in
  let selected := symbols_query start_time end_time expected (pending s) in
  (Z.abs (end_time - start_time) < 2 ^ 34 * 1000000 →
     expected = (end_time - start_time) / 60000000
     ∧ 60000000 * expected ≤ end_time - start_time < 60000000 * (expected + 1))
  ∧ run_backfill_fact_stock_bars_api get_stock_data start_time end_time s
    = match fault s with
      | None => get_stock_data start_time end_time selected s
      | Some e => (inl e, s)
      end
  ∧ selected
    ≡ₚ Stock.symbol <$>
        filter (λ ds, non_imputed_count start_time end_time
                        (fact_stock_bars (pending s)) (Stock.symbol ds) < expected)
          (dim_stocks (pending s))
  ∧ (∀ sym, sym ∈ selected ↔
       sym ∈ Stock.symbol <$> dim_stocks (pending s)
       ∧ non_imputed_count start_time end_time (fact_stock_bars (pending s)) sym < expected)
  ∧ (∀ sym, sym ∈ Stock.symbol <$> dim_stocks (pending s) →
       non_imputed_count start_time end_time (fact_stock_bars (pending s)) sym = 0 →
       0 < expected → sym ∈ selected)
  ∧ expected_minutes (dt 2025 4 1 0 0) (dt 2025 4 1 1 0) = 60.
Proof.
  intros expected selected.
  assert (Hmem : ∀ sym, sym ∈ selected ↔
            sym ∈ Stock.symbol <$> dim_stocks (pending s)
            ∧ non_imputed_count start_time end_time
                (fact_stock_bars (pending s)) sym < expected).
  { intros sym. subst selected. rewrite symbols_query_selects, !list_elem_of_fmap.
    split.
    - intros (ds & -> & [Hcount Hin]%list_elem_of_filter). eauto.
    - intros [(ds & -> & Hin) Hcount]. exists ds. split; [done|].
      by apply list_elem_of_filter. }
  split.
  { intros Hrange. split; [by apply expected_minutes_exact|].
    by apply expected_minutes_floor. }
  split.
  { destruct (fault s) as [e|] eqn:Hs.
    - by destruct (run_backfill_fact_stock_bars_faulty failing_sql get_stock_data
                     start_time end_time s e Hs) as [_ ->].
    - by destruct (run_backfill_fact_stock_bars_healthy failing_sql get_stock_data
                     start_time end_time s Hs) as [_ ->]. }
  split; [subst selected; by rewrite symbols_query_selects|].
  split; [exact Hmem|]. split; [|by vm_compute].
  intros sym Hin Hzero Hpos. apply Hmem. split; [done|]. by rewrite Hzero.
Qed.

Lemma refetch_selects_symbols_below_expected_witness :
  Z.abs (dt 2025 4 1 1 0 - dt 2025 4 1 0 0) < 2 ^ 34 * 1000000
  ∧ expected_minutes (dt 2025 4 1 0 0) (dt 2025 4 1 1 0)
    = (dt 2025 4 1 1 0 - dt 2025 4 1 0 0) / 60000000
  ∧ run_backfill_fact_stock_bars_api no_fetch
      (dt 2025 4 1 0 0) (dt 2025 4 1 1 0) sample_store_session
    = no_fetch (dt 2025 4 1 0 0) (dt 2025 4 1 1 0)
        (symbols_query (dt 2025 4 1 0 0) (dt 2025 4 1 1 0)
           (expected_minutes (dt 2025 4 1 0 0) (dt 2025 4 1 1 0)) sample_store)
        sample_store_session
  ∧ symbols_query 0 (3 * 60000000) 3
      (mkDB sample_bars [Stock.mk "AAPL"; Stock.mk "BBY"; Stock.mk "CSCO"] [])
    = ["AAPL"; "BBY"; "CSCO"]
  ∧ symbols_query 0 (1 * 60000000) 1
      (mkDB sample_bars [Stock.mk "AAPL"; Stock.mk "BBY"; Stock.mk "CSCO"] [])
    = ["CSCO"].
Proof.
  assert (Hrange : Z.abs (dt 2025 4 1 1 0 - dt 2025 4 1 0 0) < 2 ^ 34 * 1000000)
    by reflexivity.
  split; [exact Hrange|]. split; [|split; [|split; reflexivity]].
  - exact (proj1 (proj1 (refetch_selects_symbols_below_expected no_fetch
                           (dt 2025 4 1 0 0) (dt 2025 4 1 1 0)
                           sample_store_session) Hrange)).
  - exact (proj1 (proj2 (refetch_selects_symbols_below_expected no_fetch
                           (dt 2025 4 1 0 0) (dt 2025 4 1 1 0)
                           sample_store_session))).
Defined.

(** C9: when [end_time <= start_time], [expected_minutes] is at most 0, the
    query selects no symbol of any store, and [get_stock_data] is called with
    the empty list (unless the connection refuses the query, which raises
    before the call). *)
Theorem empty_range_refetches_nothing get_stock_data start_time end_time s :
  end_time ≤ start_time →
  expected_minutes start_time end_time ≤ 0
  ∧ symbols_query start_time end_time
      (expected_minutes start_time end_time) (pending s) = []
  ∧ run_backfill_fact_stock_bars_api get_stock_data start_time end_time s
    = match fault s with
      | None => get_stock_data start_time end_time [] s
      | Some e => (inl e, s)
      end.
Proof.
  intros Hrange.
  assert (Hexp : expected_minutes start_time end_time ≤ 0)
    by (by apply expected_minutes_nonpositive).
  assert (Hnone : symbols_query start_time end_time
            (expected_minutes start_time end_time) (pending s) = []).
  { rewrite symbols_query_selects.
    induction (dim_stocks (pending s)) as [|ds stocks IH]; [done|].
    rewrite filter_cons, decide_False; [exact IH|].
    pose proof (non_imputed_count_nonneg start_time end_time
                  (fact_stock_bars (pending s)) (Stock.symbol ds)). lia. }
  split; [exact Hexp|]. split; [exact Hnone|].
  destruct (fault s) as [e|] eqn:Hs.
  - by destruct (run_backfill_fact_stock_bars_faulty failing_sql get_stock_data
                   start_time end_time s e Hs) as [_ ->].
  - destruct (run_backfill_fact_stock_bars_healthy failing_sql get_stock_data
                start_time end_time s Hs) as [_ ->].
    by rewrite Hnone.
Qed.

Lemma empty_range_refetches_nothing_witness :
  10 ≤ 10
  ∧ run_backfill_fact_stock_bars_api no_fetch 10 10 sample_store_session
    = no_fetch 10 10 [] sample_store_session.
Proof.
  split; [lia|].
  refine (proj2 (proj2 (empty_range_refetches_nothing no_fetch 10 10
                          sample_store_session _))).
  lia.
Defined.

(** ** Symbol directory reads *)

Lemma distinct_on_keys {A} (key : A → string) (rows : list A) :
  key <$> distinct_on key rows = remove_dups (key <$> rows).
Proof.
  induction rows as [|r rows IH]; [done|].
  rewrite fmap_cons. cbn [distinct_on remove_dups]. unfold decide, decide_rel.
  destruct (list_elem_of_dec (key r) (key <$> rows)); [done|].
  rewrite fmap_cons. by f_equal.
Qed.

(** C8: [get_active_symbols] always returns a list and never raises.  On a
    healthy connection the list holds each symbol present in StockBar exactly
    once (so it is empty for an empty table); when the query fails the list
    is empty. *)
Theorem get_active_symbols_never_raises s :
  ∃ symbols,
    get_active_symbols s
      = (inr symbols, mkSession (committed s) (committed s) (fault s))
    ∧ match fault s with
      | None =>
          NoDup symbols
          ∧ (∀ sym, sym ∈ symbols ↔ sym ∈ StockBar.symbol <$> fact_stock_bars (pending s))
          ∧ (fact_stock_bars (pending s) = [] → symbols = [])
      | Some _ => symbols = []
      end.
Proof.
  unfold get_active_symbols. run_session.
  destruct (fault s) as [e|] eqn:Hs; simpl.
  - exists []. by rewrite Hs.
  - eexists. rewrite Hs. split; [reflexivity|].
    change (list_fmap _ _ ?f ?l) with (f <$> l).
    rewrite distinct_on_keys. split; [apply NoDup_remove_dups|]. split.
    + intros sym. apply elem_of_remove_dups.
    + by intros ->.
Qed.

Lemma group_by_starting_letter_empty_symbol stock_table_list grouped :
  EmptyString ∈ stock_table_list →
  group_by_starting_letter stock_table_list grouped = inl IndexError.
Proof.
  revert grouped. induction stock_table_list as [|symbol rest IH]; intros grouped Hin.
  - by apply elem_of_nil in Hin.
  - simpl. destruct symbol as [|c symbol]; [done|]. simpl.
    assert (EmptyString ∈ rest) as Hrest.
    { by apply elem_of_cons in Hin as [?|?]. }
    destruct (decide _); by apply IH.
Qed.

Lemma elem_of_sort sym (l : list string) : sym ∈ sort l ↔ sym ∈ l.
Proof. unfold sort. by rewrite merge_sort_Permutation. Qed.

(** C10: when some Stock symbol is the empty string, the grouping loop
    raises [IndexError] and [load_stock_table_list] with
    [group_by="alphabetical"] returns the empty list, whatever the other
    symbols are. *)
Theorem empty_symbol_discards_grouping s :
  EmptyString ∈ Stock.symbol <$> dim_stocks (pending s) →
  group_by_starting_letter (sort (Stock.symbol <$> dim_stocks (pending s))) []
    = inl IndexError
  ∧ load_stock_table_list (Some "alphabetical") s
    = (inr [], mkSession (committed s) (committed s) (fault s)).
Proof.
  intros Hempty.
  assert (Hraise : group_by_starting_letter
            (sort (Stock.symbol <$> dim_stocks (pending s))) [] = inl IndexError).
  { apply group_by_starting_letter_empty_symbol. by apply elem_of_sort. }
  split; [exact Hraise|].
  unfold load_stock_table_list. run_session.
  destruct (fault s) as [e|] eqn:Hs; simpl; [by rewrite Hs|].
  change (list_fmap _ _ ?f ?l) with (f <$> l).
  rewrite Hraise. simpl. by rewrite Hs.
Qed.

Lemma empty_symbol_discards_grouping_witness :
  EmptyString ∈ Stock.symbol <$> dim_stocks (pending (sample_session [EmptyString; "AAPL"]))
  ∧ load_stock_table_list (Some "alphabetical") (sample_session [EmptyString; "AAPL"])
    = (inr [], sample_session [EmptyString; "AAPL"]).
Proof.
  split; [left|].
  refine (proj2 (empty_symbol_discards_grouping (sample_session [EmptyString; "AAPL"]) _)).
  left.
Defined.

(** ** Inserting newly observed symbols *)

Lemma elem_of_new_stock_symbols db sym :
  sym ∈ new_stock_symbols db ↔
  sym ∈ StockBar.symbol <$> fact_stock_bars db
  ∧ sym ∉ Stock.symbol <$> dim_stocks db.
Proof.
  unfold new_stock_symbols. rewrite elem_of_remove_dups. split.
  - intros (bar & -> & [Hnew Hin]%list_elem_of_filter)%list_elem_of_fmap.
    split; [|done]. apply list_elem_of_fmap. eauto.
  - intros [(bar & -> & Hin)%list_elem_of_fmap Hnew].
    apply list_elem_of_fmap. exists bar. split; [done|].
    by apply list_elem_of_filter.
Qed.

Lemma stock_symbols_after_insert db :
  Stock.symbol <$> dim_stocks (insert_new_stocks_stmt db)
  = (Stock.symbol <$> dim_stocks db) ++ new_stock_symbols db.
Proof.
  simpl. rewrite fmap_app. f_equal.
  induction (new_stock_symbols db) as [|sym l IH]; [done|].
  rewrite !fmap_cons. simpl. by f_equal.
Qed.

Lemma bar_symbols_known_after_insert db sym :
  sym ∈ StockBar.symbol <$> fact_stock_bars db →
  sym ∈ Stock.symbol <$> dim_stocks (insert_new_stocks_stmt db).
Proof.
  intros Hin. rewrite stock_symbols_after_insert, elem_of_app.
  destruct (decide (sym ∈ Stock.symbol <$> dim_stocks db)); [by left|].
  right. by apply elem_of_new_stock_symbols.
Qed.

Lemma filter_none {A} (P : A → Prop) `{∀ x, Decision (P x)} (l : list A) :
  (∀ x, x ∈ l → ¬ P x) → filter P l = [].
Proof.
  intros Hall. induction l as [|x l IH]; [done|].
  rewrite filter_cons, decide_False by (apply Hall; left).
  apply IH. intros y Hy. apply Hall. by right.
Qed.

Lemma new_stock_symbols_after_insert db :
  new_stock_symbols (insert_new_stocks_stmt db) = [].
Proof.
  unfold new_stock_symbols at 1.
  rewrite filter_none; [done|].
  intros bar Hbar Hnew. apply Hnew.
  apply bar_symbols_known_after_insert, list_elem_of_fmap. eauto.
Qed.

Lemma insert_new_stocks_stmt_idempotent db :
  insert_new_stocks_stmt (insert_new_stocks_stmt db) = insert_new_stocks_stmt db.
Proof.
  unfold insert_new_stocks_stmt at 1.
  rewrite new_stock_symbols_after_insert. simpl. by rewrite app_nil_r.
Qed.

Lemma insert_new_stocks_outcome s :
  insert_new_stocks s =
    match fault s with
    | None => (inr (), mkSession (insert_new_stocks_stmt (pending s))
                         (insert_new_stocks_stmt (pending s)) None)
    | Some e => (inl e, s)
    end.
Proof.
  unfold insert_new_stocks. run_session.
  destruct (fault s) as [e|] eqn:Hs; simpl; by rewrite ?Hs.
Qed.

(** C4: [insert_new_stocks] appends to Stock exactly the distinct StockBar
    symbols that Stock does not hold yet and changes nothing else: the old
    Stock rows are a prefix of the new table, every StockBar symbol is in
    Stock afterwards, Stock keeps its symbols unique (each symbol exactly
    once), and a second call on the unchanged store inserts nothing.  A
    connection that refuses the statement raises and changes nothing. *)
Theorem insert_new_stocks_idempotent_monotone s :
  let db := pending s in
  let db' := insert_new_stocks_stmt db in
  let s' := mkSession db' db' None in
  insert_new_stocks s = match fault s with None => (inr (), s') | Some e => (inl e, s) end
  ∧ dim_stocks db' = dim_stocks db ++ (Stock.mk <$> new_stock_symbols db)
  ∧ NoDup (new_stock_symbols db)
  ∧ (∀ sym, sym ∈ new_stock_symbols db ↔
       sym ∈ StockBar.symbol <$> fact_stock_bars db
       ∧ sym ∉ Stock.symbol <$> dim_stocks db)
  ∧ (∀ sym, sym ∈ StockBar.symbol <$> fact_stock_bars db →
       sym ∈ Stock.symbol <$> dim_stocks db')
  ∧ (NoDup (Stock.symbol <$> dim_stocks db) → NoDup (Stock.symbol <$> dim_stocks db'))
  ∧ insert_new_stocks s' = (inr (), s')
  ∧ fact_stock_bars db' = fact_stock_bars db
  ∧ agg_stock_bars db' = agg_stock_bars db.
Proof.
  intros db db' s'.
  split; [apply insert_new_stocks_outcome|].
  split; [done|].
  split; [apply NoDup_remove_dups|].
  split; [apply elem_of_new_stock_symbols|].
  split; [apply bar_symbols_known_after_insert|].
  split.
  { intros Hunique. subst db'. rewrite stock_symbols_after_insert.
    apply NoDup_app. split; [done|]. split; [|apply NoDup_remove_dups].
    intros sym Hold Hnew. by apply elem_of_new_stock_symbols in Hnew as [_ ?]. }
  split; [|done].
  rewrite insert_new_stocks_outcome. subst s' db'. simpl.
  by rewrite insert_new_stocks_stmt_idempotent.
Qed.

Lemma insert_new_stocks_idempotent_monotone_witness :
  insert_new_stocks sample_store_session
    = (inr (), mkSession (insert_new_stocks_stmt sample_store)
                 (insert_new_stocks_stmt sample_store) None)
  ∧ Stock.symbol <$> dim_stocks (insert_new_stocks_stmt sample_store)
    = ["AAPL"; "BBY"].
Proof.
  split; [|reflexivity].
  exact (proj1 (insert_new_stocks_idempotent_monotone sample_store_session)).
Defined.

(** ** Prefix search through [LIKE] *)

Lemma like_chars_any_run s : like_chars ["%"%char] s = true.
Proof. induction s as [|c s IH]; [done|]. simpl in *. exact IH. Qed.

Lemma like_chars_literal c pattern s :
  like_special c = false →
  like_chars (c :: pattern) s =
    match s with
    | [] => false
    | c' :: s' => bool_decide (c = c') && like_chars pattern s'
    end.
Proof.
  destruct c as [[] [] [] [] [] [] [] []]; intros Hc;
    first [discriminate Hc | reflexivity].
Qed.

Lemma like_plain_prefix prefix s :
  plain_prefix prefix →
  like s (prefix +:+ "%") = startswith s prefix.
Proof.
  unfold like, startswith, plain_prefix. revert s.
  induction prefix as [|c prefix IH]; intros s Hplain.
  - change (String.list_ascii_of_string (EmptyString +:+ "%")) with ["%"%char].
    rewrite like_chars_any_run. by destruct s.
  - change (String.list_ascii_of_string (String c prefix +:+ "%"))
      with (c :: String.list_ascii_of_string (prefix +:+ "%")).
    change (String.list_ascii_of_string (String c prefix))
      with (c :: String.list_ascii_of_string prefix) in Hplain.
    apply Forall_cons in Hplain as [Hc Hplain].
    rewrite like_chars_literal by done.
    destruct s as [|c' s]; [done|]. simpl.
    rewrite IH by done.
    destruct (ascii_dec c c') as [->|Hne].
    + by rewrite bool_decide_eq_true_2.
    + by rewrite bool_decide_eq_false_2.
Qed.

Lemma fmap_filter_symbol (P : string → Prop) `{∀ sym, Decision (P sym)}
    (stocks : list Stock.t) :
  Stock.symbol <$> filter (λ r, P (Stock.symbol r)) stocks
  = filter P (Stock.symbol <$> stocks).
Proof.
  induction stocks as [|r stocks IH]; [done|].
  rewrite fmap_cons, !filter_cons.
  destruct (decide (P (Stock.symbol r))); [rewrite fmap_cons|]; by rewrite IH.
Qed.

(** C7, as stated, fails: the prefix is spliced into a [LIKE] pattern
    unescaped, so for the prefix ["_"] (and ["%"]) every symbol is returned
    although none of them starts with that prefix. *)
Lemma load_stock_starting_by_wildcard_counterexample :
  (load_stock_starting_by "_" (sample_session ["AAPL"; "AMZN"; "BBY"])).1
    = inr ["AAPL"; "AMZN"; "BBY"]
  ∧ (load_stock_starting_by "%" (sample_session ["AAPL"; "AMZN"; "BBY"])).1
    = inr ["AAPL"; "AMZN"; "BBY"]
  ∧ startswith "AAPL" "_" = false
  ∧ startswith "AAPL" "%" = false.
Proof. repeat split; vm_compute; reflexivity. Qed.

(** C7, amended: for every prefix that contains none of the characters
    [%], [_] and backslash, and every Stock table, [load_stock_starting_by]
    returns exactly the Stock symbols that start with the prefix,
    case-sensitively and in storage order (and the empty list when the
    connection refuses the query); on ["AAPL"; "AMZN"; "BBY"] the prefix
    ["A"] gives ["AAPL"; "AMZN"]. *)
Theorem load_stock_starting_by_plain_prefix starting_letter s :
  plain_prefix starting_letter →
  let symbols := Stock.symbol <$> dim_stocks (pending s) in
  let found := filter (λ sym, startswith sym starting_letter = true) symbols in
  load_stock_starting_by starting_letter s
    = (inr (match fault s with None => found | Some _ => [] end),
       mkSession (committed s) (committed s) (fault s))
  ∧ (∀ sym, sym ∈ found ↔ sym ∈ symbols ∧ startswith sym starting_letter = true)
  ∧ (load_stock_starting_by "A" (sample_session ["AAPL"; "AMZN"; "BBY"])).1
    = inr ["AAPL"; "AMZN"].
Proof.
  intros Hplain symbols found. split; [|split].
  - unfold load_stock_starting_by. run_session.
    destruct (fault s) as [e|] eqn:Hs; simpl; rewrite Hs; [done|].
    do 2 f_equal. change (list_fmap _ _ ?f ?l) with (f <$> l).
    subst found symbols.
    rewrite <- (fmap_filter_symbol (λ sym, startswith sym starting_letter = true)).
    f_equal. apply list_filter_iff. intros r. by rewrite like_plain_prefix.
  - intros sym. subst found. rewrite list_elem_of_filter. tauto.
  - vm_compute. reflexivity.
Qed.

Lemma load_stock_starting_by_plain_prefix_witness :
  plain_prefix "A"
  ∧ load_stock_starting_by "A" (sample_session ["AAPL"; "AMZN"; "BBY"])
    = (inr (filter (λ sym, startswith sym "A" = true) ["AAPL"; "AMZN"; "BBY"]),
       sample_session ["AAPL"; "AMZN"; "BBY"]).
Proof.
  assert (Hplain : plain_prefix "A") by (repeat constructor).
  split; [exact Hplain|].
  exact (proj1 (load_stock_starting_by_plain_prefix "A"
                  (sample_session ["AAPL"; "AMZN"; "BBY"]) Hplain)).
Defined.

(** ** Grouping the symbols by starting letter *)

Lemma group_by_starting_letter_collects stock_table_list grouped :
  (∀ sym, sym ∈ stock_table_list → sym ≠ EmptyString) →
  group_by_starting_letter stock_table_list grouped
  = inr (collect_new grouped (initial <$> stock_table_list)).
Proof.
  revert grouped.
  induction stock_table_list as [|symbol rest IH]; intros grouped Hne; [done|].
  assert (Hrest : ∀ sym, sym ∈ rest → sym ≠ EmptyString).
  { intros sym Hin. apply Hne. by right. }
  destruct symbol as [|c symbol]; [by destruct (Hne EmptyString); [left|]|].
  rewrite fmap_cons. unfold collect_new. cbn [group_by_starting_letter getitem0 foldl initial].
  destruct (decide (upper (String c EmptyString) ∈ grouped)); by apply IH.
Qed.

Lemma elem_of_collect_new grouped keys c :
  c ∈ collect_new grouped keys ↔ c ∈ grouped ∨ c ∈ keys.
Proof.
  revert grouped. unfold collect_new.
  induction keys as [|key keys IH]; intros grouped; simpl.
  - rewrite elem_of_nil. tauto.
  - rewrite IH, elem_of_cons. destruct (decide (key ∈ grouped)) as [Hin|Hnin].
    + split; [tauto|]. intros [?|[->|?]]; auto.
    + rewrite elem_of_app, list_elem_of_singleton. tauto.
Qed.

Lemma NoDup_collect_new grouped keys :
  NoDup grouped → NoDup (collect_new grouped keys).
Proof.
  revert grouped. unfold collect_new.
  induction keys as [|key keys IH]; intros grouped Hnodup; [done|]. simpl.
  apply IH. destruct (decide (key ∈ grouped)) as [Hin|Hnin]; [done|].
  apply NoDup_app. split; [done|]. split; [|apply NoDup_singleton].
  by intros x Hx ->%list_elem_of_singleton.
Qed.

Lemma StronglySorted_collect_new grouped keys :
  StronglySorted String.le (grouped ++ keys) →
  StronglySorted String.le (collect_new grouped keys).
Proof.
  revert grouped. unfold collect_new.
  induction keys as [|key keys IH]; intros grouped Hsorted; simpl.
  - by rewrite app_nil_r in Hsorted.
  - apply IH. destruct (decide (key ∈ grouped)) as [Hin|Hnin].
    + apply StronglySorted_app in Hsorted as (Hle & Hgrouped & Hkeys).
      apply StronglySorted_cons in Hkeys as [_ Hkeys].
      apply StronglySorted_app. split; [|done].
      intros x1 x2 Hx1 Hx2. apply Hle; [done|]. by right.
    + by rewrite <- app_assoc.
Qed.

Lemma StronglySorted_fmap_members {A B} (R1 : relation A) (R2 : relation B)
    (f : A → B) (l : list A) :
  (∀ x y, x ∈ l → y ∈ l → R1 x y → R2 (f x) (f y)) →
  StronglySorted R1 l → StronglySorted R2 (f <$> l).
Proof.
  intros Hmono Hsorted. induction Hsorted as [|x l Hsorted IH Hx]; [constructor|].
  rewrite fmap_cons. constructor.
  - apply IH. intros y z Hy Hz. apply Hmono; by right.
  - rewrite Forall_fmap. rewrite Forall_forall in Hx. apply Forall_forall.
    intros y Hy. apply Hmono; [by left|by right|auto].
Qed.

(** Among symbols that do not begin with a lowercase letter, the order of
    two symbols orders their starting letters. *)
Lemma initial_monotone x y :
  x ≠ EmptyString → y ≠ EmptyString →
  initial x = String.substring 0 1 x → initial y = String.substring 0 1 y →
  String.le x y → String.le (initial x) (initial y).
Proof.
  destruct x as [|a x]; [done|]. destruct y as [|b y]; [done|].
  intros _ _ Hx Hy. rewrite Hx, Hy. cbn [String.substring].
  replace (String.substring 0 0 x) with EmptyString by (by destruct x).
  replace (String.substring 0 0 y) with EmptyString by (by destruct y).
  unfold String.le, String.leb. cbn [String.compare].
  by destruct (Ascii.compare a b).
Qed.

Lemma is_starting_letter_initial symbols c :
  (∀ sym, sym ∈ symbols → sym ≠ EmptyString) →
  is_starting_letter symbols c ↔ c ∈ initial <$> symbols.
Proof.
  intros Hne. rewrite list_elem_of_fmap. split.
  - intros (sym & c0 & Hin & Hget & ->). exists sym. split; [|done].
    destruct sym as [|a sym]; [done|]. by injection Hget as <-.
  - intros (sym & -> & Hin). exists sym.
    destruct sym as [|a sym]; [by destruct (Hne EmptyString)|].
    by exists (String a EmptyString).
Qed.

Lemma no_lowercase_initial_substring symbols sym :
  no_lowercase_initial symbols → sym ∈ symbols →
  initial sym = String.substring 0 1 sym.
Proof.
  intros Hupper Hin. destruct sym as [|a sym]; [done|].
  cbn [initial String.substring].
  replace (String.substring 0 0 sym) with EmptyString by (by destruct sym).
  by apply (Hupper (String a sym)).
Qed.

Lemma load_stock_table_list_alphabetical_outcome s :
  load_stock_table_list (Some "alphabetical") s =
    (match fault s with
     | Some _ => inr []
     | None =>
         match group_by_starting_letter
                 (sort (Stock.symbol <$> dim_stocks (pending s))) [] with
         | inl _ => inr []
         | inr grouped => inr grouped
         end
     end, mkSession (committed s) (committed s) (fault s)).
Proof.
  unfold load_stock_table_list. run_session.
  destruct (fault s) as [e|] eqn:Hs; simpl; [by rewrite Hs|].
  change (list_fmap _ _ ?f ?l) with (f <$> l).
  destruct (group_by_starting_letter _ _); simpl; by rewrite Hs.
Qed.

(** C2, as stated, fails: symbols that begin with a lowercase letter are
    sorted before they are uppercased, so the letters can come out unsorted
    (["b"; "C"] gives ["C"; "B"]); and one empty symbol empties the result,
    dropping the letter of every other symbol. *)
Lemma load_stock_table_list_alphabetical_counterexample :
  (load_stock_table_list (Some "alphabetical") (sample_session ["b"; "C"])).1
    = inr ["C"; "B"]
  ∧ ¬ Sorted String.le ["C"; "B"]
  ∧ (load_stock_table_list (Some "alphabetical")
       (sample_session [EmptyString; "AAPL"])).1 = inr []
  ∧ is_starting_letter [EmptyString; "AAPL"] "A".
Proof.
  split; [vm_compute; reflexivity|]. split; [|split; [vm_compute; reflexivity|]].
  - intros Hsorted. apply Sorted_inv in Hsorted as [_ Hhd].
    apply HdRel_inv in Hhd. vm_compute in Hhd. exact Hhd.
  - exists "AAPL", "A". split; [right; left|]. split; reflexivity.
Qed.

(** C2, amended: for every Stock table without an empty symbol,
    [load_stock_table_list] with [group_by="alphabetical"] returns, without
    repetition, exactly the uppercased first letters of the stored symbols,
    not the symbols (and the empty list when the connection refuses the
    query); when no symbol begins with a lowercase letter the letters are in
    ascending order.  On ["AAPL"; "AMZN"; "BBY"] it returns ["A"; "B"]. *)
Theorem load_stock_table_list_alphabetical s :
  (∀ sym, sym ∈ Stock.symbol <$> dim_stocks (pending s) → sym ≠ EmptyString) →
  ∃ letters,
    load_stock_table_list (Some "alphabetical") s
      = (inr (match fault s with None => letters | Some _ => [] end),
         mkSession (committed s) (committed s) (fault s))
    ∧ NoDup letters
    ∧ (∀ c, c ∈ letters ↔ is_starting_letter (Stock.symbol <$> dim_stocks (pending s)) c)
    ∧ (no_lowercase_initial (Stock.symbol <$> dim_stocks (pending s)) →
       StronglySorted String.le letters)
    ∧ (load_stock_table_list (Some "alphabetical")
         (sample_session ["AAPL"; "AMZN"; "BBY"])).1 = inr ["A"; "B"].
Proof.
  intros Hne. set (symbols := Stock.symbol <$> dim_stocks (pending s)) in *.
  assert (Hsorted_ne : ∀ sym, sym ∈ sort symbols → sym ≠ EmptyString).
  { intros sym Hin. apply Hne. by apply elem_of_sort. }
  exists (collect_new [] (initial <$> sort symbols)).
  split; [|split; [|split; [|split]]].
  - rewrite load_stock_table_list_alphabetical_outcome. fold symbols.
    rewrite group_by_starting_letter_collects by done. by destruct (fault s).
  - apply NoDup_collect_new, NoDup_nil_2.
  - intros c. rewrite elem_of_collect_new, elem_of_nil.
    rewrite is_starting_letter_initial by done. rewrite !list_elem_of_fmap.
    split.
    + intros [[]|(sym & -> & Hin)]. exists sym. split; [done|]. by apply elem_of_sort.
    + intros (sym & -> & Hin). right. exists sym. split; [done|]. by apply elem_of_sort.
  - intros Hupper. apply StronglySorted_collect_new. rewrite app_nil_l.
    apply (StronglySorted_fmap_members String.le).
    + intros x y Hx Hy. apply initial_monotone; auto.
      * apply (no_lowercase_initial_substring symbols); [done|]. by apply elem_of_sort.
      * apply (no_lowercase_initial_substring symbols); [done|]. by apply elem_of_sort.
    + apply Sorted_StronglySorted; [apply _|]. unfold sort.
      apply Sorted_merge_sort. apply _.
  - vm_compute. reflexivity.
Qed.

Lemma load_stock_table_list_alphabetical_witness :
  ∃ letters,
    load_stock_table_list (Some "alphabetical") (sample_session ["AAPL"; "AMZN"; "BBY"])
      = (inr letters, sample_session ["AAPL"; "AMZN"; "BBY"])
    ∧ NoDup letters.
Proof.
  assert (Hne : ∀ sym,
            sym ∈ Stock.symbol <$>
                    dim_stocks (pending (sample_session ["AAPL"; "AMZN"; "BBY"])) →
            sym ≠ EmptyString).
  { intros sym Hin ->. simpl in Hin.
    repeat (apply elem_of_cons in Hin as [Hin|Hin]; [discriminate Hin|]).
    by apply elem_of_nil in Hin. }
  destruct (load_stock_table_list_alphabetical
              (sample_session ["AAPL"; "AMZN"; "BBY"]) Hne)
    as (letters & Hload & Hnodup & _).
  exists letters. split; [exact Hload|exact Hnodup].
Defined.

(** * Further properties of the module *)

(** ** Reads and the shared session *)

(** X1: [load_stock_table_list] with any [group_by] other than
    ["alphabetical"] (no value, a misspelling, another case) returns every
    Stock symbol in storage order, duplicates included, and the empty list
    when the connection refuses the query. *)
Theorem load_stock_table_list_ungrouped group_by s :
  group_by ≠ Some "alphabetical" →
  load_stock_table_list group_by s
  = (inr (match fault s with
          | None => Stock.symbol <$> dim_stocks (pending s)
          | Some _ => []
          end), closed s).
Proof.
  intros Hgroup. unfold load_stock_table_list, closed. run_session.
  destruct (fault s) as [e|] eqn:Hs; simpl; [by rewrite Hs|].
  rewrite decide_False by done. simpl. by rewrite Hs.
Qed.

Lemma load_stock_table_list_ungrouped_witness :
  Some "ALPHABETICAL" ≠ Some "alphabetical"
  ∧ load_stock_table_list (Some "ALPHABETICAL") (sample_session ["BBY"; "AAPL"; "BBY"])
    = (inr ["BBY"; "AAPL"; "BBY"], sample_session ["BBY"; "AAPL"; "BBY"]).
Proof.
  assert (Hgroup : Some "ALPHABETICAL" ≠ Some "alphabetical") by discriminate.
  split; [exact Hgroup|].
  exact (load_stock_table_list_ungrouped (Some "ALPHABETICAL")
           (sample_session ["BBY"; "AAPL"; "BBY"]) Hgroup).
Defined.

(** X2: the three reads of the symbol directory never raise and never change
    committed data, but their [finally: session.close()] throws away whatever
    the shared session had executed and not yet committed. *)
Theorem symbol_reads_discard_open_transaction group_by starting_letter s :
  (∃ symbols, get_active_symbols s = (inr symbols, closed s))
  ∧ (∃ symbols, load_stock_table_list group_by s = (inr symbols, closed s))
  ∧ (∃ symbols, load_stock_starting_by starting_letter s = (inr symbols, closed s)).
Proof.
  unfold get_active_symbols, load_stock_table_list, load_stock_starting_by, closed.
  run_session. destruct (fault s) as [e|] eqn:Hs; simpl; rewrite ?Hs.
  - repeat split; by eexists.
  - split; [by eexists|]. split; [|by eexists].
    destruct (decide (group_by = Some "alphabetical")); simpl; rewrite ?Hs; [|by eexists].
    destruct (group_by_starting_letter _ _); simpl; rewrite Hs; by eexists.
Qed.

(** ** Outcomes of the write operations *)

(** X3: each of the four delete-then-recompute operations ends without an
    open transaction, whatever the connection and the recompute query do; it
    returns normally only when the recompute query succeeded, and then the
    committed store is that query's result on the store left by the delete. *)
Theorem write_operations_end_committed_or_rolled_back
    backfill candles agg_backfill generic start_time end_time aggregation s :
  let bars_deleted := delete_stock_bars start_time end_time (pending s) in
  let aggs_deleted := delete_stock_bar_aggregates start_time end_time aggregation (pending s) in
  let settled (recomputed : result DB) (out : result unit * Session) :=
    ends_clean s out
    ∧ (out.1 = inr () → fault s = None ∧ recomputed = inr (committed out.2)) in
  settled (backfill start_time end_time bars_deleted)
    (run_backfill_fact_stock_bars backfill start_time end_time s)
  ∧ settled (candles start_time end_time aggregation aggs_deleted)
      (run_agg_stock_bars_candles candles start_time end_time aggregation s)
  ∧ settled (agg_backfill start_time end_time aggregation aggs_deleted)
      (run_agg_backfill_stock_bars agg_backfill start_time end_time aggregation s)
  ∧ settled (generic start_time end_time aggregation aggs_deleted)
      (run_agg_stock_bars generic start_time end_time aggregation s).
Proof.
  intros bars_deleted aggs_deleted settled. subst settled. unfold ends_clean.
  destruct (fault s) as [e|] eqn:Hs.
  - destruct (run_backfill_fact_stock_bars_faulty backfill no_fetch
                start_time end_time s e Hs) as [-> _].
    destruct (run_aggregations_faulty candles agg_backfill generic
                start_time end_time aggregation s e Hs) as (-> & -> & ->).
    unfold refused. simpl. by repeat split.
  - destruct (run_backfill_fact_stock_bars_healthy backfill no_fetch
                start_time end_time s Hs) as [-> _].
    destruct (run_aggregations_healthy candles agg_backfill generic
                start_time end_time aggregation s Hs) as (-> & -> & ->).
    fold bars_deleted aggs_deleted. unfold after_recompute.
    destruct (backfill _ _ _), (candles _ _ _ _), (agg_backfill _ _ _ _),
      (generic _ _ _ _); simpl; by repeat split.
Qed.

(** X4: on a connection that refuses statements with [e], nothing the
    module does changes committed data: the four delete-then-recompute
    operations roll back and raise [e] again, [insert_new_stocks] and
    [run_backfill_fact_stock_bars_api] raise [e] with the session as it was
    (the fetch collaborator is not called), and the three reads return the
    empty list. *)
Theorem refused_connection_changes_nothing
    backfill candles agg_backfill generic get_stock_data
    start_time end_time aggregation group_by starting_letter s e :
  fault s = Some e →
  run_backfill_fact_stock_bars backfill start_time end_time s = refused s e
  ∧ run_agg_stock_bars_candles candles start_time end_time aggregation s = refused s e
  ∧ run_agg_backfill_stock_bars agg_backfill start_time end_time aggregation s = refused s e
  ∧ run_agg_stock_bars generic start_time end_time aggregation s = refused s e
  ∧ insert_new_stocks s = (inl e, s)
  ∧ run_backfill_fact_stock_bars_api get_stock_data start_time end_time s = (inl e, s)
  ∧ get_active_symbols s = (inr [], closed s)
  ∧ load_stock_table_list group_by s = (inr [], closed s)
  ∧ load_stock_starting_by starting_letter s = (inr [], closed s).
Proof.
  intros Hs.
  destruct (run_backfill_fact_stock_bars_faulty backfill get_stock_data
              start_time end_time s e Hs) as [-> ->].
  destruct (run_aggregations_faulty candles agg_backfill generic
              start_time end_time aggregation s e Hs) as (-> & -> & ->).
  rewrite insert_new_stocks_outcome, Hs.
  unfold get_active_symbols, load_stock_table_list, load_stock_starting_by, closed.
  run_session. rewrite Hs. simpl. rewrite Hs. by repeat split.
Qed.

Lemma refused_connection_changes_nothing_witness :
  fault sample_faulty_session = Some forced_failure
  ∧ run_backfill_fact_stock_bars failing_sql 0 10 sample_faulty_session
    = (inl forced_failure, mkSession sample_store sample_store (Some forced_failure))
  ∧ insert_new_stocks sample_faulty_session = (inl forced_failure, sample_faulty_session).
Proof.
  split; [reflexivity|].
  pose proof (refused_connection_changes_nothing
                failing_sql failing_agg_sql failing_agg_sql failing_agg_sql no_fetch
                0 10 "5min" None "A" sample_faulty_session forced_failure eq_refl)
    as (Hbackfill & _ & _ & _ & Hinsert & _).
  split; [exact Hbackfill|exact Hinsert].
Defined.

(** ** How the deletes compose *)

Lemma delete_where_idempotent {A} (cond : A → bool) (rows : list A) :
  delete_where cond (delete_where cond rows) = delete_where cond rows.
Proof.
  apply delete_where_none. intros r Hr. by apply elem_of_delete_where in Hr as [_ ?].
Qed.

Lemma delete_where_twice {A} (c1 c2 : A → bool) (rows : list A) :
  delete_where c2 (delete_where c1 rows) = delete_where (λ r, c1 r || c2 r) rows.
Proof.
  unfold delete_where. rewrite list_filter_filter. apply list_filter_iff.
  intros r. rewrite orb_false_iff. tauto.
Qed.

Lemma delete_where_ext {A} (c1 c2 : A → bool) (rows : list A) :
  (∀ r, c1 r = c2 r) → delete_where c1 rows = delete_where c2 rows.
Proof. intros Heq. apply list_filter_iff. intros r. by rewrite Heq. Qed.

(** X5: a retry after a failed recompute starts from the same table: when
    the recompute query of the first call raised, calling the operation again
    (with any recompute query) deletes nothing more and hands that query the
    very store the first delete left. *)
Theorem retry_after_failed_recompute sql sql' agg_sql agg_sql'
    start_time end_time aggregation s e :
  fault s = None →
  let bars_deleted := delete_stock_bars start_time end_time (pending s) in
  let aggs_deleted := delete_stock_bar_aggregates start_time end_time aggregation (pending s) in
  (sql start_time end_time bars_deleted = inl e →
   run_backfill_fact_stock_bars sql' start_time end_time
     (run_backfill_fact_stock_bars sql start_time end_time s).2
   = after_recompute bars_deleted (sql' start_time end_time bars_deleted))
  ∧ (agg_sql start_time end_time aggregation aggs_deleted = inl e →
     run_agg_stock_bars agg_sql' start_time end_time aggregation
       (run_agg_stock_bars agg_sql start_time end_time aggregation s).2
     = after_recompute aggs_deleted (agg_sql' start_time end_time aggregation aggs_deleted)
     ∧ run_agg_stock_bars_candles agg_sql' start_time end_time aggregation
         (run_agg_stock_bars_candles agg_sql start_time end_time aggregation s).2
       = after_recompute aggs_deleted (agg_sql' start_time end_time aggregation aggs_deleted)
     ∧ run_agg_backfill_stock_bars agg_sql' start_time end_time aggregation
         (run_agg_backfill_stock_bars agg_sql start_time end_time aggregation s).2
       = after_recompute aggs_deleted (agg_sql' start_time end_time aggregation aggs_deleted)).
Proof.
  intros Hs bars_deleted aggs_deleted.
  assert (Hbars : delete_stock_bars start_time end_time bars_deleted = bars_deleted).
  { subst bars_deleted. unfold delete_stock_bars. simpl.
    by rewrite delete_where_idempotent. }
  assert (Haggs : delete_stock_bar_aggregates start_time end_time aggregation aggs_deleted
                  = aggs_deleted).
  { subst aggs_deleted. unfold delete_stock_bar_aggregates. simpl.
    by rewrite delete_where_idempotent. }
  split; intros Hfail.
  - destruct (run_backfill_fact_stock_bars_healthy sql no_fetch
                start_time end_time s Hs) as [-> _].
    cbv zeta. fold bars_deleted. rewrite Hfail. simpl.
    destruct (run_backfill_fact_stock_bars_healthy sql' no_fetch start_time end_time
                (mkSession bars_deleted bars_deleted None) eq_refl) as [-> _].
    simpl. by rewrite Hbars.
  - destruct (run_aggregations_healthy agg_sql agg_sql agg_sql
                start_time end_time aggregation s Hs) as (-> & -> & ->).
    fold aggs_deleted. rewrite Hfail. simpl.
    destruct (run_aggregations_healthy agg_sql' agg_sql' agg_sql' start_time end_time
                aggregation (mkSession aggs_deleted aggs_deleted None) eq_refl)
      as (-> & -> & ->).
    simpl. by rewrite Haggs.
Qed.

Lemma retry_after_failed_recompute_witness :
  fault sample_store_session = None
  ∧ failing_sql 0 10 (delete_stock_bars 0 10 sample_store) = inl forced_failure
  ∧ run_backfill_fact_stock_bars (λ _ _ db, inr db) 0 10
      (run_backfill_fact_stock_bars failing_sql 0 10 sample_store_session).2
    = (inr (), mkSession (delete_stock_bars 0 10 sample_store)
                 (delete_stock_bars 0 10 sample_store) None).
Proof.
  split; [reflexivity|]. split; [reflexivity|].
  exact (proj1 (retry_after_failed_recompute failing_sql (λ _ _ db, inr db)
                  failing_agg_sql failing_agg_sql 0 10 "5min"
                  sample_store_session forced_failure eq_refl) eq_refl).
Defined.

(** X6: the delete windows are half-open, so consecutive windows add up:
    for [a <= b <= c], deleting [[a, b)] and then [[b, c)] removes exactly the
    rows that deleting [[a, c)] removes, from StockBar as from
    StockBarAggregate. *)
Theorem consecutive_windows_delete_as_one a b c aggregation db :
  a ≤ b ≤ c →
  delete_stock_bars b c (delete_stock_bars a b db) = delete_stock_bars a c db
  ∧ delete_stock_bar_aggregates b c aggregation
      (delete_stock_bar_aggregates a b aggregation db)
    = delete_stock_bar_aggregates a c aggregation db.
Proof.
  intros Habc. unfold delete_stock_bars, delete_stock_bar_aggregates. simpl.
  rewrite !delete_where_twice. split; f_equal; apply delete_where_ext; intros r;
    apply eq_true_iff_eq; rewrite orb_true_iff.
  - rewrite !imputed_in_range_true. split.
    + intros [[Hr ?]|[Hr ?]]; (split; [lia|done]).
    + intros [Hr ?]. destruct (decide (StockBar.created_at r < b));
        [left|right]; (split; [lia|done]).
  - rewrite !aggregate_in_range_true. split.
    + intros [[Hr ?]|[Hr ?]]; (split; [lia|done]).
    + intros [Hr ?]. destruct (decide (StockBarAggregate.created_at r < b));
        [left|right]; (split; [lia|done]).
Qed.

Lemma consecutive_windows_delete_as_one_witness :
  0 ≤ 6 ≤ 60
  ∧ delete_stock_bars 6 60 (delete_stock_bars 0 6 sample_store)
    = delete_stock_bars 0 60 sample_store.
Proof.
  assert (Hwindows : 0 ≤ 6 ≤ 60) by lia.
  split; [exact Hwindows|].
  exact (proj1 (consecutive_windows_delete_as_one 0 6 60 "5min" sample_store Hwindows)).
Defined.

(** X7: the deletes do not interfere: two aggregate deletes (any windows,
    any aggregations) give the same store in either order, and a StockBar
    delete commutes with an aggregate delete. *)
Theorem deletes_commute start1 end1 aggregation1 start2 end2 aggregation2 db :
  delete_stock_bar_aggregates start1 end1 aggregation1
    (delete_stock_bar_aggregates start2 end2 aggregation2 db)
  = delete_stock_bar_aggregates start2 end2 aggregation2
      (delete_stock_bar_aggregates start1 end1 aggregation1 db)
  ∧ delete_stock_bars start1 end1 (delete_stock_bars start2 end2 db)
    = delete_stock_bars start2 end2 (delete_stock_bars start1 end1 db)
  ∧ delete_stock_bars start1 end1
      (delete_stock_bar_aggregates start2 end2 aggregation2 db)
    = delete_stock_bar_aggregates start2 end2 aggregation2
        (delete_stock_bars start1 end1 db).
Proof.
  unfold delete_stock_bars, delete_stock_bar_aggregates. simpl.
  rewrite !delete_where_twice.
  split; [|split; [|done]]; f_equal; apply delete_where_ext; intros r; apply orb_comm.
Qed.

(** X8: the delete step of [run_agg_stock_bars_candles] and of
    [run_agg_backfill_stock_bars] is isolated by its filter as well: the
    store they commit and hand to their recompute query keeps every
    StockBarAggregate row of another aggregation or outside
    [[start_time, end_time)], in order and multiplicity, and leaves StockBar
    and Stock alone. *)
Theorem candles_and_backfill_delete_isolated
    candles agg_backfill start_time end_time aggregation s :
  let before := agg_stock_bars (pending s) in
  let deleted := delete_stock_bar_aggregates start_time end_time aggregation (pending s) in
  run_agg_stock_bars_candles candles start_time end_time aggregation s =
    match fault s with
    | None => after_recompute deleted (candles start_time end_time aggregation deleted)
    | Some e => refused s e
    end
  ∧ run_agg_backfill_stock_bars agg_backfill start_time end_time aggregation s =
    match fault s with
    | None => after_recompute deleted (agg_backfill start_time end_time aggregation deleted)
    | Some e => refused s e
    end
  ∧ (∀ row, row ∈ agg_stock_bars deleted ↔
       row ∈ before ∧
       ¬ (start_time ≤ StockBarAggregate.created_at row < end_time
          ∧ StockBarAggregate.aggregation row = aggregation))
  ∧ filter (λ row, StockBarAggregate.aggregation row ≠ aggregation
                   ∨ ¬ (start_time ≤ StockBarAggregate.created_at row < end_time))
      (agg_stock_bars deleted)
    = filter (λ row, StockBarAggregate.aggregation row ≠ aggregation
                     ∨ ¬ (start_time ≤ StockBarAggregate.created_at row < end_time)) before
  ∧ fact_stock_bars deleted = fact_stock_bars (pending s)
  ∧ dim_stocks deleted = dim_stocks (pending s).
Proof.
  intros before deleted. split; [|split; [|split; [|split]]].
  - destruct (fault s) as [e|] eqn:Hs.
    + by destruct (run_aggregations_faulty candles agg_backfill candles
                     start_time end_time aggregation s e Hs) as (-> & _).
    + by destruct (run_aggregations_healthy candles agg_backfill candles
                     start_time end_time aggregation s Hs) as (-> & _).
  - destruct (fault s) as [e|] eqn:Hs.
    + by destruct (run_aggregations_faulty candles agg_backfill candles
                     start_time end_time aggregation s e Hs) as (_ & -> & _).
    + by destruct (run_aggregations_healthy candles agg_backfill candles
                     start_time end_time aggregation s Hs) as (_ & -> & _).
  - intros row. subst deleted before. simpl.
    rewrite elem_of_delete_where, <- aggregate_in_range_true.
    by rewrite not_true_iff_false.
  - subst deleted before. simpl. apply delete_where_spares. intros row Hrow.
    apply not_true_is_false. rewrite aggregate_in_range_true. tauto.
  - done.
Qed.

(** ** More on the re-fetch selection *)

Lemma symbols_query_nonpositive start_time end_time expected db :
  expected ≤ 0 → symbols_query start_time end_time expected db = [].
Proof.
  intros Hexp. rewrite symbols_query_selects, filter_none; [done|].
  intros ds _.
  pose proof (non_imputed_count_nonneg start_time end_time
                (fact_stock_bars db) (Stock.symbol ds)). lia.
Qed.

Lemma run_backfill_fact_stock_bars_api_outcome get_stock_data start_time end_time s :
  run_backfill_fact_stock_bars_api get_stock_data start_time end_time s
  = match fault s with
    | None =>
        get_stock_data start_time end_time
          (symbols_query start_time end_time
             (expected_minutes start_time end_time) (pending s)) s
    | Some e => (inl e, s)
    end.
Proof.
  destruct (fault s) as [e|] eqn:Hs.
  - by destruct (run_backfill_fact_stock_bars_faulty failing_sql get_stock_data
                   start_time end_time s e Hs) as [_ ->].
  - by destruct (run_backfill_fact_stock_bars_healthy failing_sql get_stock_data
                   start_time end_time s Hs) as [_ ->].
Qed.

(** X9: only non-imputed bars inside the range decide the selection: adding
    to StockBar any bars that are imputed or lie outside
    [[start_time, end_time)] leaves the list of symbols to re-fetch as it
    was, so imputed bars never make a symbol look complete. *)
Theorem uncounted_bars_do_not_change_selection start_time end_time expected db extra :
  Forall (uncounted start_time end_time) extra →
  symbols_query start_time end_time expected
    (mkDB (fact_stock_bars db ++ extra) (dim_stocks db) (agg_stock_bars db))
  = symbols_query start_time end_time expected db.
Proof.
  intros Hextra. rewrite !symbols_query_selects. simpl. f_equal.
  apply list_filter_iff. intros ds.
  unfold non_imputed_count. rewrite filter_app, length_app.
  rewrite (filter_none _ extra); [by rewrite Nat.add_0_r|].
  intros bar Hbar (_ & Hlo & Hhi & Himp).
  rewrite Forall_forall in Hextra. destruct (Hextra bar Hbar) as [Hi|Hout].
  - congruence.
  - apply Hout. lia.
Qed.

Lemma uncounted_bars_do_not_change_selection_witness :
  Forall (uncounted 0 60000000)
    [StockBar.mk "CSCO" 5 true []; StockBar.mk "CSCO" 60000000 false []]
  ∧ symbols_query 0 60000000 1
      (mkDB (sample_bars ++ [StockBar.mk "CSCO" 5 true [];
                             StockBar.mk "CSCO" 60000000 false []])
         [Stock.mk "AAPL"; Stock.mk "CSCO"] [])
    = ["CSCO"].
Proof.
  assert (Hextra : Forall (uncounted 0 60000000)
            [StockBar.mk "CSCO" 5 true []; StockBar.mk "CSCO" 60000000 false []]).
  { constructor; [by left|]. constructor; [right; simpl; lia|]. constructor. }
  split; [exact Hextra|].
  exact (uncounted_bars_do_not_change_selection 0 60000000 1
           (mkDB sample_bars [Stock.mk "AAPL"; Stock.mk "CSCO"] []) _ Hextra).
Defined.

(** X10: a range shorter than one minute expects no bar at all: whenever
    [end_time - start_time] is below 60 seconds (negative or not), no symbol
    is selected and [get_stock_data] is called with the empty list. *)
Theorem range_under_a_minute_refetches_nothing get_stock_data start_time end_time s :
  end_time - start_time < 60000000 →
  expected_minutes start_time end_time ≤ 0
  ∧ symbols_query start_time end_time
      (expected_minutes start_time end_time) (pending s) = []
  ∧ run_backfill_fact_stock_bars_api get_stock_data start_time end_time s
    = match fault s with
      | None => get_stock_data start_time end_time [] s
      | Some e => (inl e, s)
      end.
Proof.
  intros Hrange.
  assert (Hexp : expected_minutes start_time end_time ≤ 0)
    by (by apply expected_minutes_under_a_minute).
  split; [exact Hexp|]. split; [by apply symbols_query_nonpositive|].
  rewrite run_backfill_fact_stock_bars_api_outcome.
  by rewrite symbols_query_nonpositive.
Qed.

Lemma range_under_a_minute_refetches_nothing_witness :
  59999999 - 0 < 60000000
  ∧ run_backfill_fact_stock_bars_api no_fetch 0 59999999 sample_store_session
    = no_fetch 0 59999999 [] sample_store_session.
Proof.
  assert (Hrange : 59999999 - 0 < 60000000) by lia.
  split; [exact Hrange|].
  exact (proj2 (proj2 (range_under_a_minute_refetches_nothing no_fetch 0 59999999
                         sample_store_session Hrange))).
Defined.

(** X11: on a range shorter than [2^34] seconds (about 544 years) in
    either direction, [expected_minutes] counts whole minutes and drops the
    rest: a range of [n] minutes plus less than a minute expects [n] bars per
    symbol, for negative [n] as well (the division floors).  The bound is
    needed: [total_seconds()] is a float, and from
    1400-01-01T00:00:00.000001 to 2025-04-01T00:00, which is 328848479
    minutes and 59.999999 seconds, it rounds to the next minute. *)
Theorem expected_minutes_drops_partial_minute start_time n rest :
  0 ≤ rest < 60000000 →
  Z.abs (60000000 * n + rest) < 2 ^ 34 * 1000000 →
  expected_minutes start_time (start_time + 60000000 * n + rest) = n
  ∧ dt 2025 4 1 0 0 - (dt 1400 1 1 0 0 + 1) = 60000000 * 328848479 + 59999999
  ∧ expected_minutes (dt 1400 1 1 0 0 + 1) (dt 2025 4 1 0 0) = 328848479 + 1.
Proof.
  intros Hrest Hrange. split; [|split; by vm_compute].
  rewrite expected_minutes_exact
    by (by replace (start_time + 60000000 * n + rest - start_time)
             with (60000000 * n + rest) by lia).
  symmetry. apply (Z.div_unique _ _ _ rest); lia.
Qed.

Lemma expected_minutes_drops_partial_minute_witness :
  0 ≤ 59999999 < 60000000
  ∧ Z.abs (60000000 * 59 + 59999999) < 2 ^ 34 * 1000000
  ∧ expected_minutes (dt 2025 4 1 0 0) (dt 2025 4 1 0 0 + 60000000 * 59 + 59999999) = 59.
Proof.
  assert (Hrest : 0 ≤ 59999999 < 60000000) by lia.
  assert (Hrange : Z.abs (60000000 * 59 + 59999999) < 2 ^ 34 * 1000000) by reflexivity.
  split; [exact Hrest|]. split; [exact Hrange|].
  exact (proj1 (expected_minutes_drops_partial_minute (dt 2025 4 1 0 0) 59 59999999
                  Hrest Hrange)).
Defined.

(** X12: the selection never invents a symbol: every symbol it returns is
    the symbol of a Stock row, so a symbol that has bars but no Stock row is
    never re-fetched, whatever its count and whatever is expected. *)
Theorem refetch_selection_within_stock start_time end_time expected db :
  (∀ sym, sym ∈ symbols_query start_time end_time expected db →
     sym ∈ Stock.symbol <$> dim_stocks db)
  ∧ (∀ sym, sym ∉ Stock.symbol <$> dim_stocks db →
       sym ∉ symbols_query start_time end_time expected db).
Proof.
  assert (Hin : ∀ sym, sym ∈ symbols_query start_time end_time expected db →
                  sym ∈ Stock.symbol <$> dim_stocks db).
  { intros sym. rewrite symbols_query_selects, !list_elem_of_fmap.
    intros (ds & -> & [_ Hds]%list_elem_of_filter). eauto. }
  split; [exact Hin|]. intros sym Hnot Hsel. by apply Hnot, Hin.
Qed.

(** ** Operations in sequence *)

(** X13: [insert_new_stocks] followed by
    [run_backfill_fact_stock_bars_api] re-fetches every symbol that has bars
    but too few non-imputed ones in the range, whether or not Stock knew the
    symbol before: the fetch collaborator runs on the committed store after
    the insert, and the symbol is in the list it receives. *)
Theorem insert_then_refetch_covers_bar_symbols get_stock_data start_time end_time s sym :
  fault s = None →
  sym ∈ StockBar.symbol <$> fact_stock_bars (pending s) →
  non_imputed_count start_time end_time (fact_stock_bars (pending s)) sym
    < expected_minutes start_time end_time →
  ∃ selected,
    (insert_new_stocks;;
     run_backfill_fact_stock_bars_api get_stock_data start_time end_time) s
    = get_stock_data start_time end_time selected
        (mkSession (insert_new_stocks_stmt (pending s))
           (insert_new_stocks_stmt (pending s)) None)
    ∧ sym ∈ selected.
Proof.
  intros Hs Hbar Hcount.
  exists (symbols_query start_time end_time (expected_minutes start_time end_time)
            (insert_new_stocks_stmt (pending s))).
  split.
  - unfold mbind, M_bind. rewrite insert_new_stocks_outcome, Hs.
    by rewrite run_backfill_fact_stock_bars_api_outcome.
  - rewrite symbols_query_selects.
    apply bar_symbols_known_after_insert, list_elem_of_fmap in Hbar as (ds & -> & Hds).
    apply list_elem_of_fmap. exists ds. split; [done|].
    by apply list_elem_of_filter.
Qed.

Lemma insert_then_refetch_covers_bar_symbols_witness :
  fault sample_store_session = None
  ∧ "BBY" ∈ StockBar.symbol <$> fact_stock_bars (pending sample_store_session)
  ∧ ∃ selected,
      (insert_new_stocks;; run_backfill_fact_stock_bars_api no_fetch 0 120000000)
        sample_store_session
      = no_fetch 0 120000000 selected
          (mkSession (insert_new_stocks_stmt sample_store)
             (insert_new_stocks_stmt sample_store) None)
      ∧ "BBY" ∈ selected.
Proof.
  assert (Hbar : "BBY" ∈ StockBar.symbol <$> fact_stock_bars (pending sample_store_session)).
  { simpl. do 3 right. left. }
  split; [reflexivity|]. split; [exact Hbar|].
  refine (insert_then_refetch_covers_bar_symbols no_fetch 0 120000000
            sample_store_session "BBY" eq_refl Hbar _).
  vm_compute. reflexivity.
Defined.

Lemma closed_clean s : pending s = committed s → closed s = s.
Proof. intros Hclean. destruct s. unfold closed. simpl in *. by subst. Qed.

Lemma get_active_symbols_outcome s :
  get_active_symbols s
  = (inr (match fault s with
          | None => StockBar.symbol <$> distinct_on StockBar.symbol (fact_stock_bars (pending s))
          | Some _ => []
          end), closed s).
Proof.
  unfold get_active_symbols, closed. run_session.
  destruct (fault s) as [e|] eqn:Hs; simpl; by rewrite Hs.
Qed.

(** X14: on a healthy connection without an open transaction, reading the
    active symbols, then inserting the new stocks, then loading the Stock
    table succeeds and leaves no open transaction; the active symbols are
    the symbols of the StockBar rows, and the loaded list holds exactly the
    symbols Stock had before together with the active ones, so every active
    symbol is listed. *)
Theorem insert_then_load_lists_active_symbols s :
  fault s = None →
  pending s = committed s →
  ∃ active loaded s',
    (active ← get_active_symbols;
     insert_new_stocks;;
     loaded ← load_stock_table_list None;
     mret (active, loaded)) s
    = (inr (active, loaded), s')
    ∧ pending s' = committed s'
    ∧ (∀ sym, sym ∈ active ↔ sym ∈ StockBar.symbol <$> fact_stock_bars (pending s))
    ∧ (∀ sym, sym ∈ loaded ↔
         sym ∈ Stock.symbol <$> dim_stocks (pending s) ∨ sym ∈ active)
    ∧ (∀ sym, sym ∈ active → sym ∈ loaded).
Proof.
  intros Hs Hclean.
  assert (Hactive : ∀ sym,
            sym ∈ StockBar.symbol <$> distinct_on StockBar.symbol (fact_stock_bars (pending s))
            ↔ sym ∈ StockBar.symbol <$> fact_stock_bars (pending s)).
  { intros sym. by rewrite distinct_on_keys, elem_of_remove_dups. }
  assert (Hloaded : ∀ sym,
            sym ∈ Stock.symbol <$> dim_stocks (insert_new_stocks_stmt (pending s))
            ↔ sym ∈ Stock.symbol <$> dim_stocks (pending s)
              ∨ sym ∈ StockBar.symbol <$> distinct_on StockBar.symbol
                                            (fact_stock_bars (pending s))).
  { intros sym. rewrite Hactive, stock_symbols_after_insert, elem_of_app,
      elem_of_new_stock_symbols.
    destruct (decide (sym ∈ Stock.symbol <$> dim_stocks (pending s))); tauto. }
  exists (StockBar.symbol <$> distinct_on StockBar.symbol (fact_stock_bars (pending s))),
    (Stock.symbol <$> dim_stocks (insert_new_stocks_stmt (pending s))),
    (mkSession (insert_new_stocks_stmt (pending s))
       (insert_new_stocks_stmt (pending s)) None).
  split; [|split; [done|]; split; [exact Hactive|]; split; [exact Hloaded|]].
  - unfold mbind at 1, M_bind at 1.
    rewrite get_active_symbols_outcome, closed_clean, Hs by done.
    unfold mbind at 1, M_bind at 1. rewrite insert_new_stocks_outcome, Hs.
    unfold mbind at 1, M_bind at 1.
    by rewrite load_stock_table_list_ungrouped.
  - intros sym Hsym. apply Hloaded. by right.
Qed.

Lemma insert_then_load_lists_active_symbols_witness :
  fault sample_store_session = None
  ∧ pending sample_store_session = committed sample_store_session
  ∧ ∃ active loaded s',
      (active ← get_active_symbols;
       insert_new_stocks;;
       loaded ← load_stock_table_list None;
       mret (active, loaded)) sample_store_session
      = (inr (active, loaded), s')
      ∧ (∀ sym, sym ∈ active → sym ∈ loaded).
Proof.
  split; [reflexivity|]. split; [reflexivity|].
  destruct (insert_then_load_lists_active_symbols sample_store_session eq_refl eq_refl)
    as (active & loaded & s' & Hrun & _ & _ & _ & Hlisted).
  by exists active, loaded, s'.
Defined.

(** X15: the module run as a script re-fetches, for the window from
    2025-04-01T00:00 to 2025-05-05T23:59, exactly the Stock symbols with
    fewer than 50399 non-imputed bars in it (the last minute of 5 May is
    outside the half-open window and is not expected). *)
Theorem main_refetches_incomplete_symbols get_stock_data s :
  main get_stock_data s
  = match fault s with
    | None =>
        get_stock_data (dt 2025 4 1 0 0) (dt 2025 5 5 23 59)
          (Stock.symbol <$>
             filter (λ ds, non_imputed_count (dt 2025 4 1 0 0) (dt 2025 5 5 23 59)
                             (fact_stock_bars (pending s)) (Stock.symbol ds) < 50399)
               (dim_stocks (pending s))) s
    | Some e => (inl e, s)
    end.
Proof.
  unfold main. rewrite run_backfill_fact_stock_bars_api_outcome.
  destruct (fault s); [done|]. by rewrite symbols_query_selects.
Qed.

(** ** More on the alphabetical grouping *)

Lemma sort_Permutation (l1 l2 : list string) : l1 ≡ₚ l2 → sort l1 = sort l2.
Proof.
  intros Hperm. unfold sort.
  apply (Sorted_unique String.le); [apply Sorted_merge_sort, _..|].
  by rewrite !merge_sort_Permutation.
Qed.

(** X16: the alphabetical grouping depends on the Stock rows only up to
    their order: two sessions whose Stock tables hold the same rows in
    different storage order, on connections in the same state, return the
    same list of letters. *)
Theorem alphabetical_groups_ignore_storage_order s1 s2 :
  fault s1 = fault s2 →
  dim_stocks (pending s1) ≡ₚ dim_stocks (pending s2) →
  (load_stock_table_list (Some "alphabetical") s1).1
  = (load_stock_table_list (Some "alphabetical") s2).1.
Proof.
  intros Hfault Hperm. rewrite !load_stock_table_list_alphabetical_outcome. simpl.
  rewrite Hfault.
  by rewrite (sort_Permutation (Stock.symbol <$> dim_stocks (pending s1))
                (Stock.symbol <$> dim_stocks (pending s2))) by (by rewrite Hperm).
Qed.

Lemma alphabetical_groups_ignore_storage_order_witness :
  fault (sample_session ["BBY"; "AMZN"; "AAPL"]) = fault (sample_session ["AAPL"; "BBY"; "AMZN"])
  ∧ (load_stock_table_list (Some "alphabetical") (sample_session ["BBY"; "AMZN"; "AAPL"])).1
    = (load_stock_table_list (Some "alphabetical") (sample_session ["AAPL"; "BBY"; "AMZN"])).1.
Proof.
  split; [reflexivity|].
  apply (alphabetical_groups_ignore_storage_order
           (sample_session ["BBY"; "AMZN"; "AAPL"])
           (sample_session ["AAPL"; "BBY"; "AMZN"]) eq_refl).
  symmetry.
  exact (Permutation_cons_append [Stock.mk "BBY"; Stock.mk "AMZN"] (Stock.mk "AAPL")).
Defined.

Lemma group_by_starting_letter_shape stock_table_list grouped letters :
  group_by_starting_letter stock_table_list grouped = inr letters →
  (Forall (λ letter, String.length letter = 1%nat) grouped →
   Forall (λ letter, String.length letter = 1%nat) letters)
  ∧ (length letters ≤ length grouped + length stock_table_list)%nat
  ∧ (NoDup grouped → NoDup letters).
Proof.
  revert grouped.
  induction stock_table_list as [|symbol rest IH]; intros grouped Hrun.
  - injection Hrun as <-. split; [done|]. split; [simpl; lia|done].
  - destruct symbol as [|c symbol]; [discriminate Hrun|].
    cbn [group_by_starting_letter getitem0] in Hrun.
    destruct (decide (upper (String c EmptyString) ∈ grouped)) as [Hin|Hnin].
    + destruct (IH _ Hrun) as (Hone & Hlen & Hnodup).
      split; [done|]. split; [simpl; lia|done].
    + destruct (IH _ Hrun) as (Hone & Hlen & Hnodup).
      rewrite length_app in Hlen. split; [|split; [simpl in *; lia|]].
      * intros Hgrouped. apply Hone, Forall_app. split; [done|]. by constructor.
      * intros Hgrouped. apply Hnodup, NoDup_app. split; [done|].
        split; [|apply NoDup_singleton].
        by intros x Hx ->%list_elem_of_singleton.
Qed.

Lemma group_by_starting_letter_Forall (P : string → Prop) stock_table_list grouped letters :
  group_by_starting_letter stock_table_list grouped = inr letters →
  Forall P grouped →
  (∀ c sym, String c sym ∈ stock_table_list → P (upper (String c EmptyString))) →
  Forall P letters.
Proof.
  revert grouped.
  induction stock_table_list as [|symbol rest IH]; intros grouped Hrun Hgrouped Hkeys.
  - by injection Hrun as <-.
  - destruct symbol as [|c symbol]; [discriminate Hrun|].
    cbn [group_by_starting_letter getitem0] in Hrun.
    assert (Hrest : ∀ c' sym, String c' sym ∈ rest → P (upper (String c' EmptyString))).
    { intros c' sym Hin. apply (Hkeys c' sym). by right. }
    destruct (decide (upper (String c EmptyString) ∈ grouped)) as [Hin|Hnin].
    + by apply (IH _ Hrun).
    + apply (IH _ Hrun); [|done]. apply Forall_app. split; [done|].
      constructor; [|constructor]. apply (Hkeys c symbol). by left.
Qed.

Lemma isascii_initial c sym : isascii (String c sym) → isascii (upper (String c EmptyString)).
Proof.
  unfold isascii. intros Hc%Forall_cons_1. destruct Hc as [Hc _].
  cbn [upper String.list_ascii_of_string]. constructor; [|constructor].
  unfold upper_ascii.
  destruct ((97 <=? N_of_ascii c) && (N_of_ascii c <=? 122))%N eqn:Hletter; [|done].
  apply andb_true_iff in Hletter as [Hlow%N.leb_le Hhigh%N.leb_le].
  rewrite N_ascii_embedding; lia.
Qed.

(** X17: whatever the Stock table holds, the alphabetical grouping returns
    a list without repetition and never more entries than there are Stock
    rows; when the Stock symbols are ASCII text, every entry is a
    one-character string.  (Outside ASCII the uppercase of one character can
    be two, and this embedding does not apply.) *)
Theorem alphabetical_groups_are_single_letters s :
  ∃ letters,
    load_stock_table_list (Some "alphabetical") s = (inr letters, closed s)
    ∧ NoDup letters
    ∧ (length letters ≤ length (dim_stocks (pending s)))%nat
    ∧ ((∀ sym, sym ∈ Stock.symbol <$> dim_stocks (pending s) → isascii sym) →
       Forall (λ letter, String.length letter = 1%nat ∧ isascii letter) letters).
Proof.
  rewrite load_stock_table_list_alphabetical_outcome. fold (closed s).
  destruct (fault s) as [e|].
  { exists []. split; [done|]. split; [constructor|]. split; [simpl; lia|].
    intros _. constructor. }
  destruct (group_by_starting_letter _ _) as [e|letters] eqn:Hrun.
  { exists []. split; [done|]. split; [constructor|]. split; [simpl; lia|].
    intros _. constructor. }
  destruct (group_by_starting_letter_shape _ _ _ Hrun) as (Hone & Hlen & Hnodup).
  exists letters. split; [done|]. split; [apply Hnodup, NoDup_nil_2|]. split.
  { unfold sort in Hlen. rewrite merge_sort_Permutation, length_fmap in Hlen.
    simpl in Hlen. lia. }
  intros Hascii.
  apply (group_by_starting_letter_Forall _ _ _ _ Hrun); [constructor|].
  intros c sym Hsym. unfold sort in Hsym. rewrite merge_sort_Permutation in Hsym.
  split; [done|]. by apply (isascii_initial c sym), Hascii.
Qed.

Lemma alphabetical_groups_are_single_letters_witness :
  (∀ sym, sym ∈ Stock.symbol <$> dim_stocks (pending (sample_session ["bby"; "AAPL"; "BBY"])) →
     isascii sym)
  ∧ ∃ letters,
      load_stock_table_list (Some "alphabetical") (sample_session ["bby"; "AAPL"; "BBY"])
      = (inr letters, sample_session ["bby"; "AAPL"; "BBY"])
      ∧ letters = ["A"; "B"]
      ∧ Forall (λ letter, String.length letter = 1%nat ∧ isascii letter) letters.
Proof.
  assert (Hascii : ∀ sym,
            sym ∈ Stock.symbol <$> dim_stocks (pending (sample_session ["bby"; "AAPL"; "BBY"])) →
            isascii sym).
  { intros sym Hsym. simpl in Hsym.
    repeat (apply elem_of_cons in Hsym as [->|Hsym];
            [unfold isascii; simpl; repeat constructor|]).
    by apply elem_of_nil in Hsym. }
  split; [exact Hascii|].
  destruct (alphabetical_groups_are_single_letters (sample_session ["bby"; "AAPL"; "BBY"]))
    as (letters & Hload & _ & _ & Hone).
  exists letters. split; [exact Hload|]. split; [|exact (Hone Hascii)].
  vm_compute in Hload. by injection Hload as <-.
Defined.

(** ** More on the prefix search *)

Lemma like_chars_any_run_here pattern s :
  like_chars pattern s = true → like_chars ("%"%char :: pattern) s = true.
Proof. intros Hhere. destruct s; cbn; by rewrite Hhere. Qed.

Lemma like_chars_any_run_skip pattern c s :
  like_chars ("%"%char :: pattern) s = true →
  like_chars ("%"%char :: pattern) (c :: s) = true.
Proof. intros Hlater. cbn in *. rewrite Hlater. apply orb_true_r. Qed.

Lemma like_chars_one_char pattern c s :
  like_chars ("_"%char :: pattern) (c :: s) = like_chars pattern s.
Proof. reflexivity. Qed.

(** Without a backslash in the prefix the wildcards can only add matches:
    whatever starts with the prefix matches the pattern. *)
Lemma like_matches_prefixed prefix s :
  no_backslash prefix → startswith s prefix = true → like s (prefix +:+ "%") = true.
Proof.
  unfold no_backslash, like, startswith. revert s.
  induction prefix as [|c prefix IH]; intros s Hclean Hstarts.
  - apply like_chars_any_run.
  - change (String.list_ascii_of_string (String c prefix +:+ "%"))
      with (c :: String.list_ascii_of_string (prefix +:+ "%")).
    change (String.list_ascii_of_string (String c prefix))
      with (c :: String.list_ascii_of_string prefix) in Hclean.
    apply not_elem_of_cons in Hclean as [Hc Hclean].
    destruct s as [|c' s]; [done|]. simpl in Hstarts.
    destruct (ascii_dec c c') as [<-|]; [|done].
    change (String.list_ascii_of_string (String c s))
      with (c :: String.list_ascii_of_string s).
    specialize (IH s Hclean Hstarts).
    destruct (decide (c = "%"%char)) as [->|Hpercent].
    { by apply like_chars_any_run_skip, like_chars_any_run_here. }
    destruct (decide (c = "_"%char)) as [->|Hunderscore].
    { by rewrite like_chars_one_char. }
    rewrite like_chars_literal.
    + by rewrite bool_decide_eq_true_2, IH.
    + unfold like_special. by rewrite !bool_decide_eq_false_2 by done.
Qed.

Lemma load_stock_starting_by_outcome starting_letter s :
  load_stock_starting_by starting_letter s
  = (inr (match fault s with
          | None =>
              filter (λ sym, like sym (starting_letter +:+ "%") = true)
                (Stock.symbol <$> dim_stocks (pending s))
          | Some _ => []
          end), closed s).
Proof.
  unfold load_stock_starting_by, closed. run_session.
  destruct (fault s) as [e|] eqn:Hs; simpl; rewrite Hs; [done|].
  do 2 f_equal. change (list_fmap _ _ ?f ?l) with (f <$> l).
  by rewrite <- (fmap_filter_symbol (λ sym, like sym (starting_letter +:+ "%") = true)).
Qed.

(** X18: for every prefix, [load_stock_starting_by] never invents a symbol
    (its result is a sublist of the Stock symbols, in storage order); and
    for a prefix without a backslash it never misses one: every Stock symbol
    that starts with the prefix is returned, wildcards in the prefix only
    adding others. *)
Theorem load_stock_starting_by_misses_nothing starting_letter s :
  ∃ found,
    load_stock_starting_by starting_letter s
      = (inr (match fault s with None => found | Some _ => [] end), closed s)
    ∧ found `sublist_of` (Stock.symbol <$> dim_stocks (pending s))
    ∧ (no_backslash starting_letter →
       ∀ sym, sym ∈ Stock.symbol <$> dim_stocks (pending s) →
         startswith sym starting_letter = true → sym ∈ found).
Proof.
  eexists. split; [apply load_stock_starting_by_outcome|].
  split; [apply sublist_filter|].
  intros Hclean sym Hin Hstarts. apply list_elem_of_filter. split; [|done].
  by apply like_matches_prefixed.
Qed.

Lemma load_stock_starting_by_misses_nothing_witness :
  no_backslash "A_"
  ∧ ∃ found,
      load_stock_starting_by "A_" (sample_session ["AAPL"; "A_X"; "BBY"])
        = (inr found, sample_session ["AAPL"; "A_X"; "BBY"])
      ∧ found `sublist_of` ["AAPL"; "A_X"; "BBY"]
      ∧ "A_X" ∈ found.
Proof.
  assert (Hclean : no_backslash "A_").
  { unfold no_backslash. simpl. intros Hin.
    repeat (apply elem_of_cons in Hin as [Hin|Hin]; [discriminate Hin|]).
    by apply elem_of_nil in Hin. }
  split; [exact Hclean|].
  destruct (load_stock_starting_by_misses_nothing "A_"
              (sample_session ["AAPL"; "A_X"; "BBY"]))
    as (found & Hload & Hsub & Hfound).
  exists found. split; [exact Hload|]. split; [exact Hsub|].
  apply (Hfound Hclean); [simpl; right; left|reflexivity].
Defined.

(** X19: the empty prefix selects everything: [load_stock_starting_by("")]
    returns every Stock symbol in storage order (and the empty list when the
    connection refuses the query). *)
Theorem load_stock_starting_by_empty_prefix s :
  load_stock_starting_by EmptyString s
  = (inr (match fault s with
          | None => Stock.symbol <$> dim_stocks (pending s)
          | Some _ => []
          end), closed s).
Proof.
  rewrite load_stock_starting_by_outcome. destruct (fault s); [done|].
  do 2 f_equal. induction (Stock.symbol <$> dim_stocks (pending s)) as [|sym l IH]; [done|].
  rewrite filter_cons, decide_True; [by rewrite IH|].
  change (like_chars ["%"%char] (String.list_ascii_of_string sym) = true).
  apply like_chars_any_run.
Qed.

(** X20: the two reads fit together.  On a healthy connection without an
    open transaction, when no Stock symbol is empty, begins with a lowercase
    letter or begins with a backslash, every Stock symbol is found again by
    [load_stock_starting_by] under one of the letters that
    [load_stock_table_list(group_by="alphabetical")] returned. *)
Theorem every_symbol_is_listed_under_its_letter s :
  fault s = None →
  pending s = committed s →
  (∀ sym, sym ∈ Stock.symbol <$> dim_stocks (pending s) → sym ≠ EmptyString) →
  no_lowercase_initial (Stock.symbol <$> dim_stocks (pending s)) →
  (∀ sym, sym ∈ Stock.symbol <$> dim_stocks (pending s) → startswith sym "\" = false) →
  ∃ letters,
    load_stock_table_list (Some "alphabetical") s = (inr letters, s)
    ∧ ∀ sym, sym ∈ Stock.symbol <$> dim_stocks (pending s) →
        ∃ letter found,
          letter ∈ letters
          ∧ load_stock_starting_by letter s = (inr found, s)
          ∧ sym ∈ found.
Proof.
  intros Hs Hclean Hne Hupper Hslash.
  set (symbols := Stock.symbol <$> dim_stocks (pending s)) in *.
  exists (collect_new [] (initial <$> sort symbols)). split.
  - rewrite load_stock_table_list_alphabetical_outcome. fold symbols (closed s).
    rewrite closed_clean, Hs by done.
    rewrite group_by_starting_letter_collects; [done|].
    intros sym Hin. apply Hne. by apply elem_of_sort.
  - intros sym Hin. exists (initial sym). eexists. split; [|split].
    + apply elem_of_collect_new. right. apply list_elem_of_fmap.
      exists sym. split; [done|]. by apply elem_of_sort.
    + rewrite load_stock_starting_by_outcome, closed_clean by done. by rewrite Hs.
    + fold symbols. apply list_elem_of_filter. split; [|done].
      rewrite (no_lowercase_initial_substring symbols) by done.
      specialize (Hne sym Hin). specialize (Hslash sym Hin).
      destruct sym as [|a sym]; [done|].
      cbn [String.substring].
      replace (String.substring 0 0 sym) with EmptyString by (by destruct sym).
      apply like_matches_prefixed.
      * unfold no_backslash. simpl. intros [Ha|Ha]%elem_of_cons.
        -- subst a. unfold startswith in Hslash. simpl in Hslash.
           by destruct sym.
        -- by apply elem_of_nil in Ha.
      * unfold startswith. simpl. destruct (ascii_dec a a); [|done]. by destruct sym.
Qed.

Lemma every_symbol_is_listed_under_its_letter_witness :
  fault (sample_session ["AAPL"; "AMZN"; "BBY"]) = None
  ∧ ∃ letters,
      load_stock_table_list (Some "alphabetical") (sample_session ["AAPL"; "AMZN"; "BBY"])
        = (inr letters, sample_session ["AAPL"; "AMZN"; "BBY"])
      ∧ ∃ letter found,
          letter ∈ letters
          ∧ load_stock_starting_by letter (sample_session ["AAPL"; "AMZN"; "BBY"])
            = (inr found, sample_session ["AAPL"; "AMZN"; "BBY"])
          ∧ "BBY" ∈ found.
Proof.
  split; [reflexivity|].
  assert (Hall : ∀ P : string → Prop, P "AAPL" → P "AMZN" → P "BBY" →
            ∀ sym, sym ∈ Stock.symbol <$>
                     dim_stocks (pending (sample_session ["AAPL"; "AMZN"; "BBY"])) →
                   P sym).
  { intros P H1 H2 H3 sym Hin. simpl in Hin.
    repeat (apply elem_of_cons in Hin as [->|Hin]; [assumption|]).
    by apply elem_of_nil in Hin. }
  destruct (every_symbol_is_listed_under_its_letter
              (sample_session ["AAPL"; "AMZN"; "BBY"]) eq_refl eq_refl)
    as (letters & Hload & Hfound).
  - apply Hall; discriminate.
  - intros sym c0 Hin. revert c0.
    apply (Hall (λ sym, ∀ c0, getitem0 sym = inr c0 → upper c0 = c0));
      [intros c0 [= <-]; reflexivity..|exact Hin].
  - apply Hall; reflexivity.
  - exists letters. split; [exact Hload|]. apply Hfound. simpl. do 2 right. left.
Defined.

(** ** The connection string *)

Ltac distinct_keys :=
  let Heq := fresh "Heq" in
  intros Heq; cbv in Heq; discriminate Heq.

Lemma string_app_assoc (s1 s2 s3 : string) :
  (s1 +:+ s2) +:+ s3 = s1 +:+ (s2 +:+ s3).
Proof.
  induction s1 as [|c s1 IH]; [done|].
  change (String c ((s1 +:+ s2) +:+ s3) = String c (s1 +:+ (s2 +:+ s3))).
  by rewrite IH.
Qed.

(** X21: a missing variable is not noticed when the connection string is
    built: unsetting any environment variable gives the same
    [DATABASE_URL] as setting it to the text [None] (for [TRADING_ENV] this
    also means that host and port are then read from the variables whose
    names end in [_None]). *)
Theorem unset_variable_reads_as_None env key :
  DATABASE_URL (delete key env) = DATABASE_URL (<[key := "None"]> env).
Proof.
  assert (Hsame : ∀ k, fstr (getenv (delete key env) k)
                       = fstr (getenv (<[key := "None"]> env) k)).
  { intros k. unfold getenv. destruct (decide (key = k)) as [->|Hne].
    - by rewrite lookup_delete_eq, lookup_insert_eq.
    - by rewrite lookup_delete_ne, lookup_insert_ne. }
  unfold DATABASE_URL. cbv zeta. by rewrite !Hsame.
Qed.

(** X22: only the host and port of the selected deployment tag are used:
    setting [TRADING_POSTGRES_HOST_<tag>] and [TRADING_POSTGRES_PORT_<tag>]
    for a tag other than the value of [TRADING_ENV] (or other than [None]
    when that is unset) does not change [DATABASE_URL]. *)
Theorem other_deployment_tags_are_ignored env tag host port :
  tag ≠ fstr (getenv env "TRADING_ENV") →
  DATABASE_URL (<["TRADING_POSTGRES_HOST_" +:+ tag := host]>
                  (<["TRADING_POSTGRES_PORT_" +:+ tag := port]> env))
  = DATABASE_URL env.
Proof.
  intros Htag.
  set (env' := <["TRADING_POSTGRES_HOST_" +:+ tag := host]>
                 (<["TRADING_POSTGRES_PORT_" +:+ tag := port]> env)).
  assert (Hother : ∀ k, k ≠ "TRADING_POSTGRES_HOST_" +:+ tag →
                        k ≠ "TRADING_POSTGRES_PORT_" +:+ tag →
                        getenv env' k = getenv env k).
  { intros k Hhost Hport. unfold getenv, env'. by rewrite !lookup_insert_ne. }
  unfold DATABASE_URL. cbv zeta.
  rewrite (Hother "TRADING_ENV") by distinct_keys.
  rewrite (Hother "TRADING_POSTGRES_USER") by distinct_keys.
  rewrite (Hother "TRADING_POSTGRES_PASSWORD") by distinct_keys.
  rewrite (Hother "TRADING_POSTGRES_DB") by distinct_keys.
  revert Htag. generalize (fstr (getenv env "TRADING_ENV")). intros selected Htag.
  rewrite (Hother ("TRADING_POSTGRES_HOST_" +:+ selected)).
  - rewrite (Hother ("TRADING_POSTGRES_PORT_" +:+ selected)); [done| |].
    + distinct_keys.
    + intros Heq. by apply (inj (String.app "TRADING_POSTGRES_PORT_")) in Heq.
  - intros Heq. by apply (inj (String.app "TRADING_POSTGRES_HOST_")) in Heq.
  - distinct_keys.
Qed.

Lemma other_deployment_tags_are_ignored_witness :
  "DEV" ≠ fstr (getenv {[ "TRADING_ENV" := "PROD" ]} "TRADING_ENV")
  ∧ DATABASE_URL (<["TRADING_POSTGRES_HOST_DEV" := "localhost"]>
                    (<["TRADING_POSTGRES_PORT_DEV" := "5432"]>
                       {[ "TRADING_ENV" := "PROD" ]}))
    = DATABASE_URL {[ "TRADING_ENV" := "PROD" ]}.
Proof.
  assert (Htag : "DEV" ≠ fstr (getenv {[ "TRADING_ENV" := "PROD" ]} "TRADING_ENV")).
  { unfold getenv. rewrite lookup_singleton_eq. discriminate. }
  split; [exact Htag|].
  exact (other_deployment_tags_are_ignored {[ "TRADING_ENV" := "PROD" ]}
           "DEV" "localhost" "5432" Htag).
Defined.

(** X23: the credentials are pasted into the connection string as they
    are: a user name ending in [:p1] with password [p2] gives the same
    [DATABASE_URL] as the bare user name with password [p1:p2], so the
    string does not determine the credentials. *)
Theorem credentials_are_not_escaped env user p1 p2 :
  DATABASE_URL (<["TRADING_POSTGRES_USER" := user +:+ ":" +:+ p1]>
                  (<["TRADING_POSTGRES_PASSWORD" := p2]> env))
  = DATABASE_URL (<["TRADING_POSTGRES_USER" := user]>
                    (<["TRADING_POSTGRES_PASSWORD" := p1 +:+ ":" +:+ p2]> env)).
Proof.
  assert (Hother : ∀ u p k, k ≠ "TRADING_POSTGRES_USER" → k ≠ "TRADING_POSTGRES_PASSWORD" →
            getenv (<["TRADING_POSTGRES_USER" := u]>
                      (<["TRADING_POSTGRES_PASSWORD" := p]> env)) k = getenv env k).
  { intros u p k Hu Hp. unfold getenv. by rewrite !lookup_insert_ne. }
  assert (Huser : ∀ u p, getenv (<["TRADING_POSTGRES_USER" := u]>
                     (<["TRADING_POSTGRES_PASSWORD" := p]> env)) "TRADING_POSTGRES_USER"
                   = Some u).
  { intros u p. unfold getenv. by rewrite lookup_insert_eq. }
  assert (Hpassword : ∀ u p, getenv (<["TRADING_POSTGRES_USER" := u]>
                     (<["TRADING_POSTGRES_PASSWORD" := p]> env)) "TRADING_POSTGRES_PASSWORD"
                   = Some p).
  { intros u p. unfold getenv. rewrite lookup_insert_ne by distinct_keys.
    by rewrite lookup_insert_eq. }
  unfold DATABASE_URL. cbv zeta.
  rewrite !Huser, !Hpassword.
  rewrite !(Hother _ _ "TRADING_ENV") by distinct_keys.
  rewrite !(Hother _ _ "TRADING_POSTGRES_DB") by distinct_keys.
  generalize (fstr (getenv env "TRADING_ENV")). intros selected.
  rewrite !(Hother _ _ ("TRADING_POSTGRES_HOST_" +:+ selected)) by distinct_keys.
  rewrite !(Hother _ _ ("TRADING_POSTGRES_PORT_" +:+ selected)) by distinct_keys.
  unfold fstr at 1 2 6 7. simpl.
  by rewrite !string_app_assoc.
Qed.

(** ** More on [insert_new_stocks] and the backfill delete *)

(** X24: [insert_new_stocks] changes the store exactly when some StockBar
    symbol is missing from Stock: its statement is a no-op if and only if
    every symbol that has a bar already has a Stock row (in particular on an
    empty StockBar table). *)
Theorem insert_new_stocks_noop_iff db :
  insert_new_stocks_stmt db = db ↔
  (∀ sym, sym ∈ StockBar.symbol <$> fact_stock_bars db →
          sym ∈ Stock.symbol <$> dim_stocks db).
Proof.
  split.
  - intros Hnoop sym Hbar.
    destruct (decide (sym ∈ Stock.symbol <$> dim_stocks db)) as [|Hnew]; [done|].
    assert (Hin : sym ∈ new_stock_symbols db) by (by apply elem_of_new_stock_symbols).
    apply (f_equal dim_stocks) in Hnoop. simpl in Hnoop.
    rewrite <- (app_nil_r (dim_stocks db)) in Hnoop at 2.
    apply app_inv_head in Hnoop.
    destruct (new_stock_symbols db); [by apply elem_of_nil in Hin|discriminate Hnoop].
  - intros Hknown. unfold insert_new_stocks_stmt, new_stock_symbols.
    rewrite filter_none.
    + simpl. rewrite app_nil_r. by destruct db.
    + intros bar Hbar Hnew. apply Hnew, Hknown, list_elem_of_fmap. eauto.
Qed.

(** X25: the backfill delete never changes what the API backfill will
    re-fetch: for any two windows, the symbols selected after
    [run_backfill_fact_stock_bars]'s delete are the symbols selected before
    it, since the delete only removes imputed bars and those are not
    counted. *)
Theorem backfill_delete_keeps_refetch_selection
    delete_start delete_end start_time end_time expected db :
  symbols_query start_time end_time expected
    (delete_stock_bars delete_start delete_end db)
  = symbols_query start_time end_time expected db.
Proof.
  assert (Hcount : ∀ sym,
            non_imputed_count start_time end_time
              (delete_where (imputed_in_range delete_start delete_end) (fact_stock_bars db)) sym
            = non_imputed_count start_time end_time (fact_stock_bars db) sym).
  { intros sym. unfold non_imputed_count, delete_where. rewrite list_filter_filter.
    do 2 f_equal. apply list_filter_iff. intros bar. split; [tauto|].
    intros (Hsym & Hlo & Hhi & Himp). repeat split; try done.
    apply not_true_is_false. rewrite imputed_in_range_true. intros [_ Htrue]. congruence. }
  rewrite !symbols_query_selects. simpl. f_equal.
  apply list_filter_iff. intros ds. by rewrite Hcount.
Qed.
